(** * LS8 emulator ([ls8/cpu.py]): a shallow embedding and its properties

    The emulator is a Python class [CPU] whose fields are mutated by a
    fetch-decode-execute loop.  Its fields become a record, its methods
    become computations in a state-and-exception monad, and the Python
    objects stored in memory and registers (unbounded integers, and the
    floats that true division produces) become the type [value]. *)

From Stdlib Require Import ZArith Bool String SpecFloat.
From stdpp Require Import base tactics option list gmap.

Local Open Scope Z_scope.

(** ** Python values and the operators the emulator applies to them *)

Module Py.

(** The exceptions the interpreter can raise while running [cpu.py].
    [UnsupportedALU] is the bare [Exception] raised by [alu]. *)
Inductive exn :=
| IndexError | TypeError | ZeroDivisionError | OverflowError | ValueError
| UnsupportedALU.

(** A Python [int] is unbounded; a Python [float] is an IEEE 754 binary64
    number, here a [spec_float] with 53 bits of precision. *)
Inductive value :=
| VInt (z : Z)
| VFloat (f : spec_float).

Definition prec : Z := 53.
Definition emax : Z := 1024.

(** A pure operator either yields a value or raises. *)
Definition res (A : Type) : Type := (exn + A)%type.
Abbreviation good := (@inr exn _) (only parsing).
Abbreviation bad := (@inl exn _) (only parsing).

(** [float(n)]: round to nearest even, [OverflowError] when out of range. *)
Definition to_float (v : value) : res spec_float :=
  match v with
  | VFloat f => good f
  | VInt z =>
      match binary_normalize prec emax z 0 false with
      | S754_infinity _ => bad OverflowError
      | f => good f
      end
  end.

(** The integer [z] as an exact, unrounded binary number. *)
Definition exact (z : Z) : spec_float :=
  match z with
  | Z0 => S754_zero false
  | Zpos p => S754_finite false p 0
  | Zneg p => S754_finite true p 0
  end.

Definition is_zero (f : spec_float) : bool :=
  match f with S754_zero _ => true | _ => false end.

(** Arithmetic with at least one float operand: the integer operand is
    converted first, then the IEEE operation applies. *)
Definition float_op (op : spec_float -> spec_float -> spec_float)
    (x y : value) : res value :=
  match to_float x with
  | inl e => bad e
  | inr fx =>
      match to_float y with
      | inl e => bad e
      | inr fy => good (VFloat (op fx fy))
      end
  end.

(** [x + y] *)
Definition add (x y : value) : res value :=
  match x, y with
  | VInt a, VInt b => good (VInt (a + b))
  | _, _ => float_op (SFadd prec emax) x y
  end.

(** [x - y] *)
Definition sub (x y : value) : res value :=
  match x, y with
  | VInt a, VInt b => good (VInt (a - b))
  | _, _ => float_op (SFsub prec emax) x y
  end.

(** [x * y] *)
Definition mul (x y : value) : res value :=
  match x, y with
  | VInt a, VInt b => good (VInt (a * b))
  | _, _ => float_op (SFmul prec emax) x y
  end.

(** [x / y]: true division.  On two integers the quotient is rounded once,
    from the exact operands; a result too large for a float is an
    [OverflowError].  Division by zero raises for integers and floats. *)
Definition truediv (x y : value) : res value :=
  match x, y with
  | VInt a, VInt b =>
      if b =? 0 then bad ZeroDivisionError
      else match SFdiv prec emax (exact a) (exact b) with
           | S754_infinity _ => bad OverflowError
           | f => good (VFloat f)
           end
  | _, _ =>
      match to_float x with
      | inl e => bad e
      | inr fx =>
          match to_float y with
          | inl e => bad e
          | inr fy =>
              if is_zero fy then bad ZeroDivisionError
              else good (VFloat (SFdiv prec emax fx fy))
          end
      end
  end.

(** The bitwise operators are defined on integers only. *)
Definition int_op (op : Z -> Z -> Z) (x y : value) : res value :=
  match x, y with
  | VInt a, VInt b => good (VInt (op a b))
  | _, _ => bad TypeError
  end.

(** [x & y], [x | y], [x ^ y] *)
Definition and_ := int_op Z.land.
Definition or_ := int_op Z.lor.
Definition xor_ := int_op Z.lxor.

(** The interpreter (CPython, 64-bit) keeps an [int] as a sequence of
    30-bit digits and refuses to build one of more than [max_digits] of
    them: the digits, 4 bytes each, and a 24-byte header must fit a size of
    at most [sys.maxsize] = 2^63 - 1 bytes. *)
Definition digit_bits : Z := 30.
Definition max_digits : Z := (2 ^ 63 - 1 - 24) / 4.

(** The number of digits of a non-zero [int]. *)
Definition digits (a : Z) : Z := Z.log2 (Z.abs a) / digit_bits + 1.

(** [x << y]: a negative shift count is a [ValueError], and zero shifted by
    any other count is zero.  Otherwise the result is allotted the digits
    of [x], one digit for every 30 bits of the count and one more for the
    remaining bits, and a result of more than [max_digits] digits is an
    [OverflowError] ("too many digits in integer"): the count is itself an
    unbounded [int], so a shift can ask for it.  Short of that limit the
    shift is carried out here, where integers are unbounded; an interpreter
    may run out of memory first, here as in every other operation. *)
Definition lshift (x y : value) : res value :=
  match x, y with
  | VInt a, VInt b =>
      if b <? 0 then bad ValueError
      else if a =? 0 then good (VInt 0)
      else if max_digits
              <? digits a + b / digit_bits + (if b mod digit_bits =? 0 then 0 else 1)
      then bad OverflowError
      else good (VInt (Z.shiftl a b))
  | _, _ => bad TypeError
  end.

(** [x >> y] *)
Definition rshift (x y : value) : res value :=
  match x, y with
  | VInt a, VInt b => if b <? 0 then bad ValueError else good (VInt (Z.shiftr a b))
  | _, _ => bad TypeError
  end.

(** Exact comparison of a float with an integer; [None] for a NaN. *)
Definition compare_float_int (f : spec_float) (n : Z) : option comparison :=
  match f with
  | S754_nan => None
  | S754_infinity s => Some (if s then Lt else Gt)
  | S754_zero _ => Some (0 ?= n)
  | S754_finite s m e =>
      let sm := cond_Zopp s (Zpos m) in
      Some (if 0 <=? e then (sm * 2 ^ e ?= n) else (sm ?= n * 2 ^ (- e)))
  end.

(** Numeric comparison; [None] when an operand is a NaN. *)
Definition compare (x y : value) : option comparison :=
  match x, y with
  | VInt a, VInt b => Some (a ?= b)
  | VFloat f, VInt b => compare_float_int f b
  | VInt a, VFloat g => CompOpp <$> compare_float_int g a
  | VFloat f, VFloat g => SFcompare f g
  end.

(** [x < y], [x > y], [x == y] *)
Definition lt (x y : value) : bool :=
  match compare x y with Some Lt => true | _ => false end.
Definition gt (x y : value) : bool :=
  match compare x y with Some Gt => true | _ => false end.
Definition eq (x y : value) : bool :=
  match compare x y with Some Eq => true | _ => false end.

(** Subscripting a list of length [len] with [i]: a negative index counts
    from the end, an index outside [-len, len) is an [IndexError], and a
    float index is a [TypeError]. *)
Definition index (len : nat) (i : value) : res nat :=
  match i with
  | VFloat _ => bad TypeError
  | VInt z =>
      if (0 <=? z) && (z <? Z.of_nat len) then good (Z.to_nat z)
      else if (- Z.of_nat len <=? z) && (z <? 0) then good (Z.to_nat (z + Z.of_nat len))
      else bad IndexError
  end.

End Py.

(** ** The machine *)

Module CPU.
Import Py.

(** Opcodes (lines 5-31 of [cpu.py], written there in binary). *)
Definition HLT : Z := 0x01.  (* 0b00000001 *)
Definition LDI : Z := 0x82.  (* 0b10000010 *)
Definition PRN : Z := 0x47.  (* 0b01000111 *)
Definition MUL : Z := 0xA2.  (* 0b10100010 *)
Definition PSH : Z := 0x45.  (* 0b01000101 *)
Definition POP : Z := 0x46.  (* 0b01000110 *)
Definition CALL : Z := 0x50. (* 0b01010000 *)
Definition RET : Z := 0x11.  (* 0b00010001 *)
Definition ADD : Z := 0xA0.  (* 0b10100000 *)
Definition AND : Z := 0xA8.  (* 0b10101000 *)
Definition CMP : Z := 0xA7.  (* 0b10100111 *)
Definition DEC : Z := 0x66.  (* 0b01100110 *)
Definition DIV : Z := 0xA3.  (* 0b10100011 *)
Definition INC : Z := 0x65.  (* 0b01100101 *)
Definition IRET : Z := 0x13. (* 0b00010011 *)
Definition JEQ : Z := 0x55.  (* 0b01010101 *)
Definition JLE : Z := 0x59.  (* 0b01011001 *)
Definition JLT : Z := 0x58.  (* 0b01011000 *)
Definition JMP : Z := 0x54.  (* 0b01010100 *)
Definition JNE : Z := 0x56.  (* 0b01010110 *)
Definition LD : Z := 0x83.   (* 0b10000011 *)
Definition OR : Z := 0xAA.   (* 0b10101010 *)
Definition PRA : Z := 0x48.  (* 0b01001000 *)
Definition SHL : Z := 0xAC.  (* 0b10101100 *)
Definition ST : Z := 0x84.   (* 0b10000100 *)
Definition SUB : Z := 0xA1.  (* 0b10100001 *)
Definition XOR : Z := 0xAB.  (* 0b10101011 *)

(** Flags. *)
Definition LT : Z := 4. (* 0b100 *)
Definition GT : Z := 2. (* 0b010 *)
Definition EQ : Z := 1. (* 0b001 *)

(** What the emulator writes to standard output: the register printed by
    [prn], or the diagnostic of [run] with the opcode and the address. *)
Inductive output :=
| Printed (v : value)
| Invalid (ir : value) (address : value).

(** The fields of a [CPU] object.  [fl] is only ever assigned integers
    (0, then the results of [&=] and [|=] with integer constants), so it is
    an integer here.  [stdout] collects what was printed, oldest first. *)
Record t := mk {
  pc : value;
  ram : list value;
  reg : list value;
  halted : bool;
  setsPC : bool;
  fl : Z;
  stdout : list output
}.

(** [self.SP], set to 7 by the constructor and never assigned again. *)
Definition SP : value := VInt 7.

(** A method runs on the object and either returns or raises; in both
    cases the object is left as the method mutated it. *)
Inductive result (A : Type) :=
| Ok (a : A) (s : t)
| Raise (e : exn) (s : t).
Arguments Ok {A} a s.
Arguments Raise {A} e s.

Definition state_of {A} (r : result A) : t :=
  match r with Ok _ s => s | Raise _ s => s end.

Definition M (A : Type) : Type := t -> result A.

#[global] Instance M_ret : MRet M := fun A a s => Ok a s.
#[global] Instance M_bind : MBind M := fun A B f m s =>
  match m s with
  | Ok a s' => f a s'
  | Raise e s' => Raise e s'
  end.

Definition raise {A} (e : exn) : M A := fun s => Raise e s.

Definition lift {A} (r : res A) : M A :=
  match r with inl e => raise e | inr a => mret a end.

(** Field reads and writes. *)
Definition with_pc (v : value) (s : t) : t :=
  mk v (ram s) (reg s) (halted s) (setsPC s) (fl s) (stdout s).
Definition with_ram (l : list value) (s : t) : t :=
  mk (pc s) l (reg s) (halted s) (setsPC s) (fl s) (stdout s).
Definition with_reg (l : list value) (s : t) : t :=
  mk (pc s) (ram s) l (halted s) (setsPC s) (fl s) (stdout s).
Definition with_halted (b : bool) (s : t) : t :=
  mk (pc s) (ram s) (reg s) b (setsPC s) (fl s) (stdout s).
Definition with_setsPC (b : bool) (s : t) : t :=
  mk (pc s) (ram s) (reg s) (halted s) b (fl s) (stdout s).
Definition with_fl (z : Z) (s : t) : t :=
  mk (pc s) (ram s) (reg s) (halted s) (setsPC s) z (stdout s).
Definition with_stdout (o : list output) (s : t) : t :=
  mk (pc s) (ram s) (reg s) (halted s) (setsPC s) (fl s) o.

Definition get {A} (f : t -> A) : M A := fun s => Ok (f s) s.
Definition put (f : t -> t) : M unit := fun s => Ok tt (f s).
Definition set_pc (v : value) : M unit := put (with_pc v).
Definition set_ram (l : list value) : M unit := put (with_ram l).
Definition set_reg (l : list value) : M unit := put (with_reg l).
Definition set_halted (b : bool) : M unit := put (with_halted b).
Definition set_setsPC (b : bool) : M unit := put (with_setsPC b).
Definition set_fl (z : Z) : M unit := put (with_fl z).
Definition print (o : output) : M unit :=
  put (fun s => with_stdout (stdout s ++ [o]) s).

(** [l[i]] and [l[i] = v] on a Python list. *)
Definition getitem (l : list value) (i : value) : res value :=
  match index (length l) i with
  | inl e => bad e
  | inr n => match l !! n with Some v => good v | None => bad IndexError end
  end.

Definition setitem (l : list value) (i v : value) : res (list value) :=
  match index (length l) i with
  | inl e => bad e
  | inr n => good (<[n:=v]> l)
  end.

(** [self.reg[i]] and [self.reg[i] = v] *)
Definition reg_get (i : value) : M value :=
  l ← get reg; lift (getitem l i).
Definition reg_put (i v : value) : M unit :=
  l ← get reg; l' ← lift (setitem l i v); set_reg l'.

(** The constructor. *)
Definition init : t :=
  mk (VInt 0) (replicate 256 (VInt 0))
     (<[7%nat := VInt 0xf4]> (replicate 8 (VInt 0)))
     false false 0 [].

Definition ram_read (mar : value) : M value :=
  l ← get ram; lift (getitem l mar).

Definition ram_write (mdr mar : value) : M unit :=
  l ← get ram; l' ← lift (setitem l mar mdr); set_ram l'.

(** [load], after the file has been read: [program] holds the integers
    parsed from its lines, in order. *)
Fixpoint load_from (address : Z) (program : list Z) : M unit :=
  match program with
  | [] => mret tt
  | val :: rest =>
      ram_write (VInt val) (VInt address);;
      load_from (address + 1) rest
  end.

Definition load (program : list Z) : M unit := load_from 0 program.

(** [self.reg[reg_a] op= self.reg[reg_b]]: the target is read first, then
    the right-hand side, and the result is stored back in the target.
    [reg_b] is [None] where the caller passes Python's [None], which is
    not a valid subscript. *)
Definition reg_get_opt (i : option value) : M value :=
  match i with
  | Some i => reg_get i
  | None => raise TypeError
  end.

Definition augmented (op : value -> value -> res value)
    (reg_a : value) (reg_b : option value) : M unit :=
  x ← reg_get reg_a;
  y ← reg_get_opt reg_b;
  r ← lift (op x y);
  reg_put reg_a r.

(** [self.reg[reg_a] op= 1] *)
Definition augmented_const (op : value -> value -> res value)
    (reg_a : value) (c : Z) : M unit :=
  x ← reg_get reg_a;
  r ← lift (op x (VInt c));
  reg_put reg_a r.

(** [self.fl |= flag] *)
Definition fl_or (flag : Z) : M unit :=
  f ← get fl; set_fl (Z.lor f flag).

Definition alu (op : string) (reg_a : value) (reg_b : option value) : M unit :=
  if String.eqb op "ADD" then augmented Py.add reg_a reg_b
  else if String.eqb op "AND" then augmented Py.and_ reg_a reg_b
  else if String.eqb op "SUB" then augmented Py.sub reg_a reg_b
  else if String.eqb op "MUL" then augmented Py.mul reg_a reg_b
  else if String.eqb op "DIV" then augmented Py.truediv reg_a reg_b
  else if String.eqb op "DEC" then augmented_const Py.sub reg_a 1
  else if String.eqb op "INC" then augmented_const Py.add reg_a 1
  else if String.eqb op "CMP" then
    (* clear all flags *)
    f ← get fl;
    set_fl (Z.land f 0x11111000);;
    x ← reg_get reg_a;
    y ← reg_get_opt reg_b;
    if Py.lt x y then fl_or LT
    else
      x' ← reg_get reg_a;
      y' ← reg_get_opt reg_b;
      if Py.gt x' y' then fl_or GT
      else fl_or EQ
  else if String.eqb op "OR" then augmented Py.or_ reg_a reg_b
  else if String.eqb op "SHL" then augmented Py.lshift reg_a reg_b
  else if String.eqb op "XOR" then augmented Py.xor_ reg_a reg_b
  else raise UnsupportedALU.

(** The handlers.  Each takes both operand bytes, whatever it uses. *)
Definition handler : Type := value -> value -> M unit.

Definition ldi : handler := fun operand_a operand_b =>
  reg_put operand_a operand_b.

Definition prn : handler := fun operand_a operand_b =>
  v ← reg_get operand_a; print (Printed v).

Definition pshVal (val : value) : M unit :=
  augmented_const Py.sub SP 1;;
  a ← reg_get SP;
  ram_write val a.

Definition psh : handler := fun operand_a operand_b =>
  v ← reg_get operand_a; pshVal v.

Definition popVal : M value :=
  a ← reg_get SP;
  val ← ram_read a;
  augmented_const Py.add SP 1;;
  mret val.

Definition pop : handler := fun operand_a operand_b =>
  v ← popVal; reg_put operand_a v.

Definition call : handler := fun operand_a operand_b =>
  p ← get pc;
  r ← lift (Py.add p (VInt 2));
  pshVal r;;
  v ← reg_get operand_a;
  set_pc v.

Definition ret : handler := fun operand_a operand_b =>
  v ← popVal; set_pc v.

Definition jmp : handler := fun operand_a operand_b =>
  v ← reg_get operand_a; set_pc v.

Definition jeq : handler := fun operand_a operand_b =>
  f ← get fl;
  if negb (Z.land f EQ =? 0) then v ← reg_get operand_a; set_pc v
  else set_setsPC false.

Definition jne : handler := fun operand_a operand_b =>
  f ← get fl;
  if Z.land f EQ =? 0 then v ← reg_get operand_a; set_pc v
  else set_setsPC false.

Definition hlt : handler := fun operand_a operand_b =>
  set_halted true.

Definition add : handler := fun operand_a operand_b => alu "ADD" operand_a (Some operand_b).
Definition andd : handler := fun operand_a operand_b => alu "AND" operand_a (Some operand_b).
Definition sub : handler := fun operand_a operand_b => alu "SUB" operand_a (Some operand_b).
Definition mul : handler := fun operand_a operand_b => alu "MUL" operand_a (Some operand_b).
Definition div : handler := fun operand_a operand_b => alu "DIV" operand_a (Some operand_b).
Definition dec : handler := fun operand_a operand_b => alu "DEC" operand_a None.
Definition inc : handler := fun operand_a operand_b => alu "INC" operand_a None.
Definition orr : handler := fun operand_a operand_b => alu "OR" operand_a (Some operand_b).
Definition xor : handler := fun operand_a operand_b => alu "XOR" operand_a (Some operand_b).
Definition cmp : handler := fun operand_a operand_b => alu "CMP" operand_a (Some operand_b).
Definition shl : handler := fun operand_a operand_b => alu "SHL" operand_a (Some operand_b).

(** [self.branchtable], in the order of the dictionary literal. *)
Definition wired : list (Z * handler) :=
  [ (HLT, hlt); (LDI, ldi); (PRN, prn); (MUL, mul); (POP, pop); (PSH, psh);
    (CALL, call); (RET, ret); (ADD, add); (AND, andd); (CMP, cmp); (DEC, dec);
    (DIV, div); (INC, inc); (JEQ, jeq); (JMP, jmp); (JNE, jne); (OR, orr);
    (SHL, shl); (SUB, sub); (XOR, xor) ].

Definition branchtable : gmap Z handler := list_to_map wired.

(** [ir in self.branchtable] and [self.branchtable[ir]].  The loop shifts
    [ir] before it looks it up, which raises on a float, so only integer
    keys reach the dictionary. *)
Definition dispatch (ir : value) : option handler :=
  match ir with
  | VInt z => branchtable !! z
  | VFloat _ => None
  end.

(** One iteration of the [while] loop of [run] begins with three reads
    (lines 184-187): the instruction byte and the two bytes after it. *)
Definition fetch : M (value * value * value) :=
  p ← get pc;
  l ← get ram;
  ir ← lift (getitem l p);
  p1 ← lift (Py.add p (VInt 1));
  operand_a ← ram_read p1;
  p2 ← lift (Py.add p (VInt 2));
  operand_b ← ram_read p2;
  mret (ir, operand_a, operand_b).

(** The rest of the iteration (lines 189-204): decode, dispatch, and move
    to the next instruction unless [setsPC] is still set. *)
Definition execute (ir operand_a operand_b : value) : M unit :=
  hi ← lift (Py.rshift ir (VInt 6));
  cnt ← lift (Py.and_ hi (VInt 3));
  fndInst ← lift (Py.add cnt (VInt 1));
  b4 ← lift (Py.rshift ir (VInt 4));
  bit ← lift (Py.and_ b4 (VInt 1));
  set_setsPC (Py.eq bit (VInt 1));;
  match dispatch ir with
   | Some h => h operand_a operand_b
   | None => p ← get pc; print (Invalid ir p)
   end;;
  sets ← get setsPC;
  if negb sets then
    p ← get pc;
    r ← lift (Py.add p fndInst);
    set_pc r
  else mret tt.

Definition step : M unit :=
  f ← fetch; execute f.1.1 f.1.2 f.2.

(** [run], for at most [fuel] iterations. *)
Inductive run_result :=
| Halted (s : t)
| Crashed (e : exn) (s : t)
| Running (s : t).

Fixpoint run (fuel : nat) (s : t) : run_result :=
  if halted s then Halted s
  else match fuel with
       | O => Running s
       | S n =>
           match step s with
           | Ok _ s' => run n s'
           | Raise e s' => Crashed e s'
           end
       end.

End CPU.

(** * Properties of the machine *)

Import Py CPU.

(** ** Vocabulary of the statements *)

#[global] Instance spec_float_eq_dec : EqDecision spec_float.
Proof. solve_decision. Defined.
#[global] Instance value_eq_dec : EqDecision value.
Proof. solve_decision. Defined.
#[global] Instance exn_eq_dec : EqDecision exn.
Proof. solve_decision. Defined.

(** The tail of [execute]: the program counter moves past the instruction
    and its operands unless [setsPC] is still set. *)
Definition advance (z : Z) : M unit :=
  sets ← get setsPC;
  if negb sets then
    p ← get pc;
    r ← lift (Py.add p (VInt (Z.land (Z.shiftr z 6) 3 + 1)));
    set_pc r
  else mret tt.

(** A freshly constructed machine with [program] loaded. *)
Definition boot (program : list Z) : t := state_of (load program init).

(** The machine after [n] more iterations of the loop body. *)
Definition steps (n : nat) (s : t) : t :=
  Nat.iter n (fun s => state_of (step s)) s.

(** Sample machines, each stopped in front of the instruction a statement
    below is about. *)
Definition before_psh_at_zero : t := steps 2 (boot [LDI; 7; 0; LDI; 0; 9; PSH; 0]).
Definition before_psh_pop : t := steps 1 (boot [LDI; 0; 5; PSH; 0; POP; 1]).
Definition before_psh_pop_sp : t := steps 1 (boot [LDI; 0; 5; PSH; 0; POP; 7]).
Definition before_call : t := steps 1 (boot [LDI; 0; 6; CALL; 0; HLT; RET]).
Definition before_jeq : t := steps 1 (boot [CMP; 0; 0; JEQ; 1]).
Definition before_add_self : t := steps 1 (boot [LDI; 0; 1; ADD; 0; 0]).
Definition before_mul : t := steps 2 (boot [LDI; 0; 8; LDI; 1; 9; MUL; 0; 1]).
Definition after_add : t := steps 2 (boot [LDI; 0; 255; ADD; 0; 0]).
Definition after_psh : t := steps 2 (boot [LDI; 0; 200; PSH; 0]).
Definition before_fault : t := steps 2 (boot [LDI; 0; 254; JMP; 0]).
Definition before_cmp : t := steps 2 (boot [LDI; 0; 3; LDI; 1; 8; CMP; 0; 1]).

(** An unsigned 8-bit quantity. *)
Definition byte (v : value) : Prop :=
  match v with
  | VInt z => 0 <= z <= 255
  | VFloat _ => False
  end.

(** The states the loop passes through, started on a program of bytes.
    [ok] restricts the states from which an iteration is taken. *)
Inductive reachable_by (ok : t -> bool) : t -> Prop :=
| reach_boot program s :
    Forall (fun z => 0 <= z <= 255) program ->
    load program init = Ok tt s ->
    reachable_by ok s
| reach_step s s' :
    reachable_by ok s ->
    halted s = false ->
    ok s = true ->
    step s = Ok tt s' ->
    reachable_by ok s'.

Definition reachable : t -> Prop := reachable_by (fun _ => true).

(** Whether a conditional jump is taken: JEQ wants the EQ bit (bit 0 of
    the flags) set, JNE wants it clear. *)
Definition branch_taken (opcode flags : Z) : bool :=
  if opcode =? JEQ then Z.testbit flags 0 else negb (Z.testbit flags 0).

(** The flag that reports how [x] compares with [y]. *)
Definition flag_of (x y : Z) : Z :=
  match x ?= y with Lt => LT | Gt => GT | Eq => EQ end.

(** The binary operation each two-register ALU instruction documents. *)
Definition binop (opcode : Z) : option (Z -> Z -> Z) :=
  if opcode =? ADD then Some Z.add
  else if opcode =? SUB then Some Z.sub
  else if opcode =? MUL then Some Z.mul
  else if opcode =? AND then Some Z.land
  else if opcode =? OR then Some Z.lor
  else if opcode =? XOR then Some Z.lxor
  else if opcode =? SHL then Some Z.shiftl
  else None.

(** The instructions that store an arithmetic result without masking it. *)
Definition unmasked : list Z := [ADD; SUB; MUL; DIV; SHL; INC; DEC].

(** An iteration that cannot take a register out of the byte range: not an
    unmasked arithmetic instruction, not a push with the stack pointer at
    0, not a pop with the stack pointer at 255. *)
Definition range_safe (s : t) : bool :=
  match fetch s with
  | Ok (VInt z, _, _) _ =>
      negb (bool_decide (z ∈ unmasked))
      && negb (bool_decide (z ∈ [PSH; CALL])
               && bool_decide (getitem (reg s) SP = inr (VInt 0)))
      && negb (bool_decide (z ∈ [POP; RET])
               && bool_decide (getitem (reg s) SP = inr (VInt 255)))
  | _ => true
  end.

(** The constructor allocates 256 memory cells and 8 registers, and no
    method changes the length of either list. *)
Definition wf (s : t) : Prop :=
  length (ram s) = 256%nat /\ length (reg s) = 8%nat.

(** Memory, registers and program counter all within the unsigned ranges
    of the data model. *)
Definition bytes_inv (s : t) : Prop :=
  wf s /\ Forall byte (reg s) /\ Forall byte (ram s)
  /\ exists p, pc s = VInt p /\ 0 <= p.

(** The instructions whose handlers write memory, assign the program
    counter, and leave the register file alone. *)
Definition ram_writers : list Z := [PSH; CALL].
Definition pc_writers : list Z := [CALL; RET; JMP; JEQ; JNE].
Definition reg_keepers : list Z := [HLT; PRN; CMP; JMP; JEQ; JNE].

(** Every exception a method raises satisfies [E]. *)
Definition raises_within {A} (E : exn -> Prop) (m : M A) : Prop :=
  forall s e s', m s = Raise e s' -> E e.

(** The operation names [alu] tests for, in the order of its [elif] chain. *)
Definition alu_names : list string :=
  ["ADD"; "AND"; "SUB"; "MUL"; "DIV"; "DEC"; "INC"; "CMP"; "OR"; "SHL"; "XOR"]%string.

(** The exceptions of the interpreter itself. *)
Definition python_error (e : exn) : Prop := e <> UnsupportedALU.

(** The machine [run] ended with. *)
Definition final (r : run_result) : t :=
  match r with Halted s | Crashed _ s | Running s => s end.

(** [s'] is [s] with other memory contents. *)
Definition only_ram_differs (s s' : t) : Prop :=
  pc s' = pc s /\ reg s' = reg s /\ halted s' = halted s
  /\ setsPC s' = setsPC s /\ fl s' = fl s /\ stdout s' = stdout s.

Definition before_ldi_prn : t := boot [LDI; 0; 8; PRN; 0].
Definition before_hlt : t := boot [HLT].
Definition before_jmp : t := steps 1 (boot [LDI; 0; 254; JMP; 0]).
Definition before_div : t := steps 2 (boot [LDI; 0; 8; LDI; 1; 2; DIV; 0; 1]).
Definition before_div_zero : t := steps 1 (boot [LDI; 0; 8; DIV; 0; 1]).
Definition before_jmp_float : t :=
  steps 3 (boot [LDI; 0; 8; LDI; 1; 2; DIV; 0; 1; JMP; 0]).
Definition before_and_float : t :=
  steps 3 (boot [LDI; 0; 8; LDI; 1; 2; DIV; 0; 1; AND; 0; 1]).
Definition before_inc : t := steps 1 (boot [LDI; 0; 255; INC; 0]).
Definition before_pop_bad : t := boot [POP; 9].

(** A float that is not a number, such as the difference of two
    infinities: every ordered comparison with it is false. *)
Definition is_nan (v : value) : bool :=
  match v with VFloat S754_nan => true | _ => false end.

(** A left shift within the interpreter's reach: a count that is a byte,
    applied to an integer of fewer than 2^60 binary digits. *)
Definition shift_in_range (x y : Z) : Prop :=
  0 <= y <= 255 /\ Z.log2 (Z.abs x) < 2 ^ 60.

(** Machines holding floats: 4.0 from 8 / 2, and the not-a-number left by
    squaring it nine times, which overflows to infinity, and subtracting
    the result from itself. *)
Definition before_cmp_float : t :=
  steps 3 (boot [LDI; 0; 8; LDI; 1; 2; DIV; 0; 1; CMP; 0; 1]).
Definition before_cmp_nan : t :=
  steps 13 (boot [LDI; 0; 8; LDI; 1; 2; DIV; 0; 1;
                  MUL; 0; 0; MUL; 0; 0; MUL; 0; 0; MUL; 0; 0; MUL; 0; 0;
                  MUL; 0; 0; MUL; 0; 0; MUL; 0; 0; MUL; 0; 0;
                  SUB; 0; 0; CMP; 0; 1]).

(** Machines in front of a shift: 3 by 4 places, and 255 by 2^255 places. *)
Definition before_shl : t := steps 2 (boot [LDI; 0; 3; LDI; 1; 4; SHL; 0; 1]).
Definition before_shl_huge : t :=
  steps 3 (boot [LDI; 0; 1; LDI; 1; 255; SHL; 0; 1; SHL; 1; 0]).

(** What a method guarantees when it returns. *)
Definition hoare {A} (P : t -> Prop) (m : M A) (Q : A -> t -> Prop) : Prop :=
  forall s a s', P s -> m s = Ok a s' -> Q a s'.

(** A property of the machine that a method keeps, whether it returns or
    raises. *)
Definition preserves {A} (I : t -> Prop) (m : M A) : Prop :=
  forall s, I s -> I (state_of (m s)).

(** ** Python lists *)

Section Subscripts.
Implicit Types (l : list value) (i j v : value) (n m : nat).

Lemma index_lt len i n : index len i = inr n -> (n < len)%nat.
Proof.
  unfold index. destruct i as [z|f]; [|discriminate].
  destruct (Z.leb_spec 0 z), (Z.ltb_spec z (Z.of_nat len)),
    (Z.leb_spec (- Z.of_nat len) z), (Z.ltb_spec z 0);
    cbn; try discriminate; intros [= <-]; lia.
Qed.

Lemma index_nonneg len z :
  0 <= z < Z.of_nat len -> index len (VInt z) = inr (Z.to_nat z).
Proof.
  intros H. unfold index.
  destruct (Z.leb_spec 0 z), (Z.ltb_spec z (Z.of_nat len)); cbn; done || lia.
Qed.

Lemma index_negative len z :
  - Z.of_nat len <= z < 0 -> index len (VInt z) = inr (Z.to_nat (z + Z.of_nat len)).
Proof.
  intros H. unfold index.
  destruct (Z.leb_spec 0 z), (Z.ltb_spec z (Z.of_nat len)),
    (Z.leb_spec (- Z.of_nat len) z), (Z.ltb_spec z 0); cbn; done || lia.
Qed.

Lemma index_outside len z :
  z < - Z.of_nat len \/ Z.of_nat len <= z -> index len (VInt z) = inl IndexError.
Proof.
  intros H. unfold index.
  destruct (Z.leb_spec 0 z), (Z.ltb_spec z (Z.of_nat len)),
    (Z.leb_spec (- Z.of_nat len) z), (Z.ltb_spec z 0); cbn; done || lia.
Qed.

Lemma getitem_spec l i v :
  getitem l i = inr v <-> exists n, index (length l) i = inr n /\ l !! n = Some v.
Proof.
  unfold getitem. split.
  - destruct (index _ i) as [e|n]; [discriminate|].
    destruct (l !! n) as [w|] eqn:E; [|discriminate].
    intros [= <-]. eauto.
  - intros (n & -> & ->). done.
Qed.

Lemma getitem_total l i n :
  index (length l) i = inr n -> exists v, getitem l i = inr v /\ l !! n = Some v.
Proof.
  intros H. destruct (lookup_lt_is_Some_2 l n (index_lt _ _ _ H)) as [v Hv].
  exists v. split; [|done]. apply getitem_spec. eauto.
Qed.

Lemma setitem_spec l i v n :
  index (length l) i = inr n -> setitem l i v = inr (<[n:=v]> l).
Proof. unfold setitem. by intros ->. Qed.

Lemma getitem_insert_eq l i v n :
  index (length l) i = inr n -> getitem (<[n:=v]> l) i = inr v.
Proof.
  intros H. apply getitem_spec. exists n. rewrite length_insert. split; [done|].
  apply list_lookup_insert_eq, (index_lt _ _ _ H).
Qed.

Lemma getitem_insert_ne l i j v n m w :
  index (length l) i = inr n -> index (length l) j = inr m -> n <> m ->
  getitem l j = inr w -> getitem (<[n:=v]> l) j = inr w.
Proof.
  intros Hi Hj Hne H. apply getitem_spec in H as (m' & Hm' & Hw).
  assert (m' = m) as -> by congruence.
  apply getitem_spec. exists m. rewrite length_insert. split; [done|].
  by rewrite list_lookup_insert_ne.
Qed.
End Subscripts.

(** ** Running a method *)

Lemma bind_unfold {A B} (m : M A) (f : A -> M B) s :
  (m ≫= f) s = match m s with Ok a s' => f a s' | Raise e s' => Raise e s' end.
Proof. reflexivity. Qed.

Lemma eq_int x y : Py.eq (VInt x) (VInt y) = (x =? y).
Proof.
  unfold Py.eq, Py.compare. destruct (Z.eqb_spec x y) as [->|H].
  - by rewrite Z.compare_refl.
  - destruct (x ?= y) eqn:E; try done. by apply Z.compare_eq in E.
Qed.

Lemma lt_int x y : Py.lt (VInt x) (VInt y) = (x <? y).
Proof. unfold Py.lt, Py.compare, Z.ltb. by destruct (x ?= y). Qed.

Lemma gt_int x y : Py.gt (VInt x) (VInt y) = (x >? y).
Proof. unfold Py.gt, Py.compare, Z.gtb. by destruct (x ?= y). Qed.

(** Unfold the monad's plumbing and let the state flow through. *)
Ltac monad_unfold :=
  unfold lift, raise, get, set_pc, set_ram, set_reg, set_halted, set_setsPC,
    set_fl, print, put in *;
  unfold mbind, M_bind, mret, M_ret in *.
Ltac run_monad := monad_unfold; cbn.

(** Read a field of an updated machine. *)
Ltac fields :=
  cbn [pc ram reg halted setsPC fl stdout with_pc with_ram with_reg
       with_halted with_setsPC with_fl with_stdout].

#[local] Arguments branchtable : simpl never.

(** A successful fetch leaves the machine as it was, and the program
    counter it read through is an integer. *)
Lemma fetch_inv s ir a b s' :
  fetch s = Ok (ir, a, b) s' ->
  s' = s /\ exists p, pc s = VInt p
    /\ getitem (ram s) (VInt p) = inr ir
    /\ getitem (ram s) (VInt (p + 1)) = inr a
    /\ getitem (ram s) (VInt (p + 2)) = inr b.
Proof.
  unfold fetch, ram_read. run_monad.
  destruct (getitem (ram s) (pc s)) as [e|ir'] eqn:E0; [done|].
  destruct (pc s) as [p|f] eqn:Ep; [|done]. cbn.
  destruct (getitem (ram s) (VInt (p + 1))) as [e|a'] eqn:E1; [done|].
  destruct (getitem (ram s) (VInt (p + 2))) as [e|b'] eqn:E2; [done|].
  intros [= -> -> -> ->]. eauto 10.
Qed.

Lemma fetch_intro s p ir a b :
  pc s = VInt p ->
  getitem (ram s) (VInt p) = inr ir ->
  getitem (ram s) (VInt (p + 1)) = inr a ->
  getitem (ram s) (VInt (p + 2)) = inr b ->
  fetch s = Ok (ir, a, b) s.
Proof.
  intros Hp H0 H1 H2. unfold fetch, ram_read. run_monad.
  rewrite Hp, H0. cbn. rewrite H1, H2. done.
Qed.

(** A failed fetch leaves the machine as it was. *)
Lemma fetch_state s : state_of (fetch s) = s.
Proof.
  unfold fetch, ram_read. run_monad.
  destruct (getitem (ram s) (pc s)); [done|].
  destruct (Py.add (pc s) (VInt 1)); [done|].
  destruct (getitem (ram s) _); [done|].
  destruct (Py.add (pc s) (VInt 2)); [done|].
  destruct (getitem (ram s) _); done.
Qed.

Lemma step_fetched s ir a b :
  fetch s = Ok (ir, a, b) s -> step s = execute ir a b s.
Proof. intros H. unfold step. by rewrite bind_unfold, H. Qed.

(** Decoding an integer instruction byte never raises. *)
Lemma execute_int z a b s :
  execute (VInt z) a b s =
  (set_setsPC (Z.land (Z.shiftr z 4) 1 =? 1);;
   match dispatch (VInt z) with
   | Some h => h a b
   | None => p ← get pc; print (Invalid (VInt z) p)
   end;;
   sets ← get setsPC;
   if negb sets then
     p ← get pc;
     r ← lift (Py.add p (VInt (Z.land (Z.shiftr z 6) 3 + 1)));
     set_pc r
   else mret tt) s.
Proof. rewrite <- eq_int. reflexivity. Qed.

Lemma step_wired s z a b (h : handler) :
  fetch s = Ok (VInt z, a, b) s -> branchtable !! z = Some h ->
  step s = (set_setsPC (Z.land (Z.shiftr z 4) 1 =? 1);; h a b;; advance z) s.
Proof.
  intros Hf Hh. rewrite (step_fetched _ _ _ _ Hf), execute_int.
  unfold dispatch. by rewrite Hh.
Qed.

(** The rule for one iteration on a wired opcode: run the handler on the
    machine with [setsPC] decoded, then advance. *)
Lemma step_wired_ok s z a b (h : handler) s1 s2 :
  fetch s = Ok (VInt z, a, b) s -> branchtable !! z = Some h ->
  h a b (with_setsPC (Z.land (Z.shiftr z 4) 1 =? 1) s) = Ok tt s1 ->
  advance z s1 = Ok tt s2 ->
  step s = Ok tt s2.
Proof.
  intros Hf Hh H1 H2. rewrite (step_wired _ _ _ _ _ Hf Hh).
  rewrite bind_unfold. unfold set_setsPC at 1, put at 1.
  by rewrite bind_unfold, H1.
Qed.

Lemma advance_ok s z p :
  pc s = VInt p -> setsPC s = false ->
  advance z s = Ok tt (with_pc (VInt (p + (Z.land (Z.shiftr z 6) 3 + 1))) s).
Proof. intros Hp Hs. unfold advance. run_monad. rewrite Hs. cbn. by rewrite Hp. Qed.

Lemma advance_skip s z : setsPC s = true -> advance z s = Ok tt s.
Proof. intros Hs. unfold advance. run_monad. by rewrite Hs. Qed.

(** ** The stack *)

Ltac unfold_handlers :=
  unfold ldi, prn, psh, pshVal, pop, popVal, call, ret, jmp, jeq, jne, hlt,
    augmented, augmented_const, reg_get_opt, fl_or, reg_get, reg_put,
    ram_read, ram_write in *.

(** Reading through [self.SP] always reads slot 7. *)
Lemma getitem_SP l v :
  getitem l SP = inr v -> index (length l) SP = inr 7%nat /\ l !! 7%nat = Some v.
Proof.
  intros (n & Hn & Hv)%getitem_spec. unfold SP in *.
  destruct (decide (7 < length l)%nat) as [Hlt|Hge].
  - rewrite index_nonneg in Hn by lia.
    change (Z.to_nat 7) with 7%nat in Hn. injection Hn as <-.
    split; [by rewrite index_nonneg by lia|done].
  - by rewrite index_outside in Hn by lia.
Qed.

Lemma pshVal_ok s v sp slot :
  getitem (reg s) SP = inr (VInt sp) ->
  index (length (ram s)) (VInt (sp - 1)) = inr slot ->
  pshVal v s = Ok tt (with_ram (<[slot:=v]> (ram s))
                       (with_reg (<[7%nat:=VInt (sp - 1)]> (reg s)) s)).
Proof.
  intros Hsp Hslot. destruct (getitem_SP _ _ Hsp) as [Hi H7].
  unfold_handlers. run_monad. rewrite Hsp. cbn.
  rewrite (setitem_spec _ _ _ _ Hi). cbn.
  rewrite (getitem_insert_eq _ _ _ _ Hi). cbn.
  by rewrite (setitem_spec _ _ _ _ Hslot).
Qed.

Lemma popVal_ok s v sp :
  getitem (reg s) SP = inr (VInt sp) ->
  getitem (ram s) (VInt sp) = inr v ->
  popVal s = Ok v (with_reg (<[7%nat:=VInt (sp + 1)]> (reg s)) s).
Proof.
  intros Hsp Hv. destruct (getitem_SP _ _ Hsp) as [Hi H7].
  unfold_handlers. run_monad. rewrite Hsp. cbn. rewrite Hv. cbn.
  rewrite Hsp. cbn. by rewrite (setitem_spec _ _ _ _ Hi).
Qed.

Lemma psh_ok s a b v sp slot :
  getitem (reg s) a = inr v ->
  getitem (reg s) SP = inr (VInt sp) ->
  index (length (ram s)) (VInt (sp - 1)) = inr slot ->
  psh a b s = Ok tt (with_ram (<[slot:=v]> (ram s))
                       (with_reg (<[7%nat:=VInt (sp - 1)]> (reg s)) s)).
Proof.
  intros Ha Hsp Hslot. unfold psh. rewrite bind_unfold.
  unfold reg_get at 1. run_monad. rewrite Ha. by apply pshVal_ok.
Qed.

Lemma pop_ok s a b v sp n :
  getitem (reg s) SP = inr (VInt sp) ->
  getitem (ram s) (VInt sp) = inr v ->
  index (length (reg s)) a = inr n ->
  pop a b s = Ok tt (with_reg (<[n:=v]> (<[7%nat:=VInt (sp + 1)]> (reg s))) s).
Proof.
  intros Hsp Hv Hn. unfold pop. rewrite bind_unfold, (popVal_ok _ _ _ Hsp Hv).
  unfold reg_put. run_monad.
  erewrite setitem_spec; [done|]. by rewrite length_insert.
Qed.



(** C10. With the stack pointer (register 7) at 0, one iteration on a PSH
    instruction stores the pushed value in the last memory cell, address
    255, which is where Python's index -1 lands in a list of 256 cells, and
    leaves the stack pointer at -1, outside the address range [0,255]. *)
Theorem psh_at_zero_wraps s a b v :
  length (ram s) = 256%nat ->
  fetch s = Ok (VInt PSH, a, b) s ->
  getitem (reg s) SP = inr (VInt 0) ->
  getitem (reg s) a = inr v ->
  exists s', step s = Ok tt s'
    /\ ram s' = <[255%nat := v]> (ram s)
    /\ getitem (reg s') SP = inr (VInt (-1))
    /\ ~ (0 <= -1 <= 255).
Proof.
  intros Hlen Hf Hsp Ha.
  destruct (fetch_inv _ _ _ _ _ Hf) as (_ & p & Hp & _).
  destruct (getitem_SP _ _ Hsp) as [Hi H7].
  eexists. split.
  { eapply step_wired_ok; [exact Hf|reflexivity| |].
    - apply psh_ok with (sp:=0); cbn; [done|done|]. by rewrite Hlen.
    - by apply advance_ok with (p:=p). }
  cbn. split; [done|]. split; [|lia].
  by apply getitem_insert_eq.
Qed.

Lemma psh_at_zero_wraps_witness :
  exists s', step before_psh_at_zero = Ok tt s'
    /\ ram s' = <[255%nat := VInt 9]> (ram before_psh_at_zero)
    /\ getitem (reg s') SP = inr (VInt (-1))
    /\ ~ (0 <= -1 <= 255).
Proof.
  apply (psh_at_zero_wraps before_psh_at_zero (VInt 0) (VInt 0) (VInt 9));
    vm_compute; reflexivity.
Defined.

(** C5, as stated, fails when the POP names register 7: the popped value
    overwrites the stack pointer that [popVal] has just incremented.  After
    LDI R0,5 the pair PSH R0; POP R7 leaves 5 in register 7, not 0xF4. *)
Lemma psh_pop_restores_sp_refuted :
  ~ (forall s r1 b1 r2 b2 v sp s1 s2,
       fetch s = Ok (VInt PSH, r1, b1) s ->
       getitem (reg s) r1 = inr v ->
       getitem (reg s) SP = inr sp ->
       step s = Ok tt s1 ->
       fetch s1 = Ok (VInt POP, r2, b2) s1 ->
       step s1 = Ok tt s2 ->
       getitem (reg s2) r2 = inr v /\ getitem (reg s2) SP = inr sp).
Proof.
  intros H.
  pose proof (H before_psh_pop_sp (VInt 0) (VInt POP) (VInt 7) (VInt 0)
                (VInt 5) (VInt 0xf4) (steps 1 before_psh_pop_sp)
                (steps 2 before_psh_pop_sp)) as Hc.
  vm_compute in Hc.
  destruct Hc as [_ Hsp]; [reflexivity..|discriminate Hsp].
Qed.

(** C5, amended.  PSH r1 immediately followed by POP r2 leaves in register
    r2 the value register r1 held before the pair; the stack pointer is back
    at its value before the pair whenever r2 is not register 7 (when it is,
    register 7 holds the popped value like any other destination). *)
Theorem psh_pop_roundtrip s r1 b1 v sp slot :
  fetch s = Ok (VInt PSH, r1, b1) s ->
  getitem (reg s) r1 = inr v ->
  getitem (reg s) SP = inr (VInt sp) ->
  index (length (ram s)) (VInt (sp - 1)) = inr slot ->
  exists s1, step s = Ok tt s1 /\
    forall r2 b2 n2,
      fetch s1 = Ok (VInt POP, r2, b2) s1 ->
      index (length (reg s1)) r2 = inr n2 ->
      exists s2, step s1 = Ok tt s2
        /\ getitem (reg s2) r2 = inr v
        /\ (n2 <> 7%nat -> getitem (reg s2) SP = inr (VInt sp)).
Proof.
  intros Hf Hv Hsp Hslot.
  destruct (fetch_inv _ _ _ _ _ Hf) as (_ & p & Hp & _).
  destruct (getitem_SP _ _ Hsp) as [Hi H7].
  eexists. split.
  { eapply step_wired_ok; [exact Hf|reflexivity| |].
    - by apply psh_ok with (sp:=sp).
    - by apply advance_ok with (p:=p). }
  cbn. intros r2 b2 n2 Hf2 Hn2.
  destruct (fetch_inv _ _ _ _ _ Hf2) as (_ & p2 & Hp2 & _).
  rewrite length_insert in Hn2.
  eexists. split.
  { eapply step_wired_ok; [exact Hf2|reflexivity| |].
    - apply pop_ok with (sp:=sp - 1) (v:=v); cbn.
      + by apply getitem_insert_eq.
      + by apply getitem_insert_eq.
      + by rewrite length_insert.
    - by apply advance_ok with (p:=p2). }
  cbn. split.
  - apply getitem_insert_eq. by rewrite !length_insert.
  - intros Hne. replace (sp - 1 + 1) with sp by lia.
    apply getitem_insert_ne with (n:=n2) (m:=7%nat) (i:=r2);
      rewrite ?length_insert; try done.
    rewrite list_insert_insert_eq. by apply getitem_insert_eq.
Qed.

Lemma psh_pop_roundtrip_witness :
  exists s1, step before_psh_pop = Ok tt s1 /\
    forall r2 b2 n2,
      fetch s1 = Ok (VInt POP, r2, b2) s1 ->
      index (length (reg s1)) r2 = inr n2 ->
      exists s2, step s1 = Ok tt s2
        /\ getitem (reg s2) r2 = inr (VInt 5)
        /\ (n2 <> 7%nat -> getitem (reg s2) SP = inr (VInt 0xf4)).
Proof.
  apply (psh_pop_roundtrip before_psh_pop (VInt 0) (VInt POP) (VInt 5) 0xf4 243%nat);
    vm_compute; reflexivity.
Defined.



(** The callee of [before_call] is a lone RET: control comes back to the
    HLT right after the CALL, with the stack pointer where it started. *)
Example call_ret_demo :
  match run 4 before_call with
  | Halted s => pc (steps 2 before_call) = VInt 5
                /\ getitem (reg s) SP = inr (VInt 0xf4)
  | _ => False
  end.
Proof. vm_compute. done. Qed.

(** ** Conditional jumps *)

(** The test [self.fl & EQ] is a test of bit 0 of the flags. *)
Lemma land_EQ f : Z.land f EQ = Z.b2z (Z.testbit f 0).
Proof.
  unfold EQ. change 1 with (Z.ones 1).
  by rewrite Z.land_ones, Z.bit0_mod by lia.
Qed.

Lemma EQ_clear f : (Z.land f EQ =? 0) = negb (Z.testbit f 0).
Proof. rewrite land_EQ. by destruct (Z.testbit f 0). Qed.

Lemma jeq_taken s a b v :
  Z.testbit (fl s) 0 = true -> getitem (reg s) a = inr v ->
  jeq a b s = Ok tt (with_pc v s).
Proof.
  intros Hfl Ha. unfold_handlers. run_monad. rewrite EQ_clear, Hfl. cbn.
  by rewrite Ha.
Qed.

Lemma jeq_skipped s a b :
  Z.testbit (fl s) 0 = false -> jeq a b s = Ok tt (with_setsPC false s).
Proof. intros Hfl. unfold_handlers. run_monad. by rewrite EQ_clear, Hfl. Qed.

Lemma jne_taken s a b v :
  Z.testbit (fl s) 0 = false -> getitem (reg s) a = inr v ->
  jne a b s = Ok tt (with_pc v s).
Proof.
  intros Hfl Ha. unfold_handlers. run_monad. rewrite EQ_clear, Hfl. cbn.
  by rewrite Ha.
Qed.

Lemma jne_skipped s a b :
  Z.testbit (fl s) 0 = true -> jne a b s = Ok tt (with_setsPC false s).
Proof. intros Hfl. unfold_handlers. run_monad. by rewrite EQ_clear, Hfl. Qed.

(** C1, as stated, fails: a conditional jump that is not taken moves the
    program counter by 2, not 3.  JEQ and JNE carry one operand (bits 6-7
    of 0x55 and 0x56 are 01), so [fndInst] is 2. *)
Lemma untaken_jump_advances_3_refuted :
  ~ (forall s opcode a b p,
       pc s = VInt p ->
       fetch s = Ok (VInt opcode, a, b) s ->
       opcode = JEQ \/ opcode = JNE ->
       branch_taken opcode (fl s) = false ->
       exists s', step s = Ok tt s' /\ pc s' = VInt (p + 3)).
Proof.
  intros H.
  destruct (H (boot [JEQ; 0]) JEQ (VInt 0) (VInt 0) 0) as (s' & Hstep & Hpc);
    [reflexivity|reflexivity|by left|reflexivity|].
  vm_compute in Hstep. injection Hstep as <-. discriminate Hpc.
Qed.

(** C1, amended.  One iteration on JEQ (or JNE) jumps to the address held
    in the named register exactly when the EQ flag is set (for JNE: clear);
    otherwise the handler cancels [setsPC] and the program counter moves 2
    bytes past the instruction, the opcode and its single operand.  Nothing
    else in the machine changes. *)
Theorem conditional_jump s opcode a b p v :
  pc s = VInt p ->
  fetch s = Ok (VInt opcode, a, b) s ->
  opcode = JEQ \/ opcode = JNE ->
  (branch_taken opcode (fl s) = true -> getitem (reg s) a = inr v) ->
  exists s', step s = Ok tt s'
    /\ setsPC s' = branch_taken opcode (fl s)
    /\ pc s' = (if branch_taken opcode (fl s) then v else VInt (p + 2))
    /\ ram s' = ram s /\ reg s' = reg s /\ fl s' = fl s
    /\ halted s' = halted s /\ stdout s' = stdout s.
Proof.
  intros Hp Hf Hop Hv.
  assert (branch_taken opcode (fl s)
          = if opcode =? JEQ then Z.testbit (fl s) 0 else negb (Z.testbit (fl s) 0))
    as Htaken by done.
  destruct Hop as [-> | ->]; rewrite Htaken in *; clear Htaken;
    destruct (Z.testbit (fl s) 0) eqn:Hfl;
    (eexists; split;
     [eapply step_wired_ok; [exact Hf|reflexivity| |] | ]).
  - apply jeq_taken; [done|by apply Hv].
  - by apply advance_skip.
  - repeat split; reflexivity.
  - by apply jeq_skipped.
  - by apply advance_ok with (p:=p).
  - repeat split; reflexivity.
  - by apply jne_skipped.
  - by apply advance_ok with (p:=p).
  - repeat split; reflexivity.
  - apply jne_taken; [done|by apply Hv].
  - by apply advance_skip.
  - repeat split; reflexivity.
Qed.

Lemma conditional_jump_witness :
  exists s', step before_jeq = Ok tt s'
    /\ setsPC s' = branch_taken JEQ (fl before_jeq)
    /\ pc s' = (if branch_taken JEQ (fl before_jeq) then VInt 0 else VInt (3 + 2))
    /\ ram s' = ram before_jeq /\ reg s' = reg before_jeq
    /\ fl s' = fl before_jeq
    /\ halted s' = halted before_jeq /\ stdout s' = stdout before_jeq.
Proof.
  apply (conditional_jump before_jeq JEQ (VInt 1) (VInt 0) 3 (VInt 0));
    [reflexivity|reflexivity|by left|intros _; reflexivity].
Defined.

(** ** The ALU *)

(** The mask of [alu] is the hexadecimal 0x11111000: its low twelve bits
    are clear, so the three flag bits are cleared with them. *)
Lemma cmp_mask_low f flag :
  Z.land (Z.lor (Z.land f 0x11111000) flag) 7 = Z.land flag 7.
Proof.
  rewrite Z.land_lor_distr_l, <- Z.land_assoc.
  change (Z.land 0x11111000 7) with 0. by rewrite Z.land_0_r.
Qed.

Lemma cmp_mask_bit f flag i :
  0 <= i < 12 ->
  Z.testbit (Z.lor (Z.land f 0x11111000) flag) i = Z.testbit flag i.
Proof.
  intros Hi. rewrite Z.lor_spec, Z.land_spec.
  assert (Z.testbit 0x11111000 i = false) as ->; [|by rewrite andb_false_r].
  assert (i = 0 \/ i = 1 \/ i = 2 \/ i = 3 \/ i = 4 \/ i = 5 \/ i = 6 \/ i = 7
          \/ i = 8 \/ i = 9 \/ i = 10 \/ i = 11) as Hcases by lia.
  repeat (destruct Hcases as [-> | Hcases]; [reflexivity|]). by subst.
Qed.

Lemma cmp_ok s a b x y :
  getitem (reg s) a = inr x ->
  getitem (reg s) b = inr y ->
  cmp a b s
  = Ok tt (with_fl (Z.lor (Z.land (fl s) 0x11111000)
                      (if Py.lt x y then LT else if Py.gt x y then GT else EQ)) s).
Proof.
  intros Ha Hb. unfold cmp, alu. cbn [String.eqb Ascii.eqb Bool.eqb].
  unfold_handlers. run_monad. rewrite Ha. cbn. rewrite Hb. cbn.
  destruct (Py.lt x y); cbn; [reflexivity|].
  rewrite Ha. cbn. rewrite Hb. cbn.
  destruct (Py.gt x y); reflexivity.
Qed.

(** A comparison is unordered exactly when an operand is not a number. *)
Lemma compare_unordered x y :
  is_nan x || is_nan y = match compare x y with None => true | Some _ => false end.
Proof.
  destruct x as [i|f], y as [j|g]; cbn.
  - reflexivity.
  - by destruct g.
  - destruct f; cbn; try reflexivity.
  - destruct f as [sf|sf| |sf mf ef], g as [sg|sg| |sg mg eg]; reflexivity.
Qed.

(** The machine [n] iterations after a reachable one is reachable, if none
    of the iterations starts halted or raises. *)
Lemma reachable_steps ok n s :
  reachable_by ok s ->
  (forall k, (k < n)%nat ->
     halted (steps k s) = false /\ ok (steps k s) = true
     /\ step (steps k s) = Ok tt (steps (S k) s)) ->
  reachable_by ok (steps n s).
Proof.
  intros Hs. induction n as [|n IH]; intros Hall; [exact Hs|].
  destruct (Hall n) as (Hrun & Hok & Hstep); [lia|].
  apply reach_step with (s:=steps n s); try done.
  apply IH. intros k Hk. apply Hall. lia.
Qed.

Lemma reachable_boot ok program :
  Forall (fun z => 0 <= z <= 255) program ->
  load program init = Ok tt (boot program) ->
  reachable_by ok (boot program).
Proof. intros Hbytes Hload. by eapply reach_boot. Qed.

Lemma before_cmp_nan_reachable : reachable before_cmp_nan.
Proof.
  apply (reachable_steps (fun _ => true) 13).
  - apply reachable_boot; [|vm_compute; reflexivity].
    apply (bool_decide_unpack _). vm_compute. reflexivity.
  - intros k Hk.
    do 13 (destruct k as [|k]; [by vm_compute|]). lia.
Qed.

(** C3, as stated, fails when a compared register holds a float that is
    not a number.  DIV leaves 4.0 in R0, nine MUL R0,R0 square it up to
    infinity and SUB R0,R0 leaves the difference of two infinities; CMP
    of that with the 2 in R1 finds it neither smaller nor larger and sets
    EQ, although the two values are not equal. *)
Lemma cmp_agrees_with_ordering_refuted :
  ~ (forall s a b x y,
       reachable s ->
       fetch s = Ok (VInt CMP, a, b) s ->
       getitem (reg s) a = inr x ->
       getitem (reg s) b = inr y ->
       exists s', step s = Ok tt s'
         /\ reg s' = reg s
         /\ Z.testbit (fl s') 2 = Py.lt x y
         /\ Z.testbit (fl s') 1 = Py.gt x y
         /\ Z.testbit (fl s') 0 = Py.eq x y).
Proof.
  intros H.
  destruct (H before_cmp_nan (VInt 0) (VInt 1) (VFloat S754_nan) (VInt 2)
              before_cmp_nan_reachable)
    as (s' & Hstep & _ & _ & _ & Heq); [vm_compute; reflexivity..|].
  vm_compute in Hstep. injection Hstep as <-. discriminate Heq.
Qed.

(** C3, amended.  One iteration on a CMP instruction leaves every register
    as it was and leaves, among the three flag bits, exactly one set: LT
    (bit 2) when the first register value is smaller than the second, GT
    (bit 1) when it is larger, EQ (bit 0) in every other case.  EQ is set
    exactly when the values are equal or one of them is not a number; for
    two integers the flag is the one of their order as integers. *)
Theorem cmp_sets_one_flag s a b x y p :
  pc s = VInt p ->
  fetch s = Ok (VInt CMP, a, b) s ->
  getitem (reg s) a = inr x ->
  getitem (reg s) b = inr y ->
  exists s', step s = Ok tt s'
    /\ reg s' = reg s
    /\ Z.land (fl s') 7 ∈ [LT; GT; EQ]
    /\ Z.testbit (fl s') 2 = Py.lt x y
    /\ Z.testbit (fl s') 1 = Py.gt x y
    /\ Z.testbit (fl s') 0 = Py.eq x y || is_nan x || is_nan y
    /\ (forall i j, x = VInt i -> y = VInt j ->
          Z.land (fl s') 7 = flag_of i j
          /\ Z.testbit (fl s') 2 = (i <? j)
          /\ Z.testbit (fl s') 1 = (i >? j)
          /\ Z.testbit (fl s') 0 = (i =? j))
    /\ ram s' = ram s /\ pc s' = VInt (p + 3)
    /\ halted s' = halted s /\ stdout s' = stdout s.
Proof.
  intros Hp Hf Ha Hb.
  eexists. split.
  { eapply step_wired_ok; [exact Hf|reflexivity| |].
    - by apply cmp_ok.
    - by apply advance_ok with (p:=p). }
  fields. split; [done|].
  rewrite cmp_mask_low, !cmp_mask_bit by lia.
  rewrite <- orb_assoc, (compare_unordered x y).
  split; [|split; [|split; [|split; [|split; [|done]]]]].
  - unfold Py.lt, Py.gt. destruct (compare x y) as [[]|];
      apply (bool_decide_unpack _); vm_compute; reflexivity.
  - unfold Py.lt, Py.gt. by destruct (compare x y) as [[]|].
  - unfold Py.lt, Py.gt. by destruct (compare x y) as [[]|].
  - unfold Py.lt, Py.gt, Py.eq. by destruct (compare x y) as [[]|].
  - intros i j -> ->. unfold Py.lt, Py.gt, flag_of, Z.ltb, Z.gtb. cbn [compare].
    rewrite (Z.eqb_compare i j).
    destruct (i ?= j); repeat split; reflexivity.
Qed.

Lemma cmp_sets_one_flag_witness :
  (exists s', step before_cmp = Ok tt s'
     /\ reg s' = reg before_cmp
     /\ Z.land (fl s') 7 ∈ [LT; GT; EQ]
     /\ Z.testbit (fl s') 2 = Py.lt (VInt 3) (VInt 8)
     /\ Z.testbit (fl s') 1 = Py.gt (VInt 3) (VInt 8)
     /\ Z.testbit (fl s') 0 = Py.eq (VInt 3) (VInt 8) || false || false
     /\ (forall i j, VInt 3 = VInt i -> VInt 8 = VInt j ->
           Z.land (fl s') 7 = flag_of i j
           /\ Z.testbit (fl s') 2 = (i <? j)
           /\ Z.testbit (fl s') 1 = (i >? j)
           /\ Z.testbit (fl s') 0 = (i =? j))
     /\ ram s' = ram before_cmp /\ pc s' = VInt (6 + 3)
     /\ halted s' = halted before_cmp /\ stdout s' = stdout before_cmp)
  /\ (exists s', step before_cmp_float = Ok tt s'
     /\ reg s' = reg before_cmp_float
     /\ Z.land (fl s') 7 ∈ [LT; GT; EQ]
     /\ Z.testbit (fl s') 2 = false
     /\ Z.testbit (fl s') 1 = true
     /\ Z.testbit (fl s') 0 = false
     /\ (forall i j, VFloat (S754_finite false 4503599627370496 (-50)) = VInt i ->
           VInt 2 = VInt j ->
           Z.land (fl s') 7 = flag_of i j
           /\ Z.testbit (fl s') 2 = (i <? j)
           /\ Z.testbit (fl s') 1 = (i >? j)
           /\ Z.testbit (fl s') 0 = (i =? j))
     /\ ram s' = ram before_cmp_float /\ pc s' = VInt (9 + 3)
     /\ halted s' = halted before_cmp_float /\ stdout s' = stdout before_cmp_float).
Proof.
  split.
  - apply (cmp_sets_one_flag before_cmp (VInt 0) (VInt 1) (VInt 3) (VInt 8) 6);
      reflexivity.
  - apply (cmp_sets_one_flag before_cmp_float (VInt 0) (VInt 1)
             (VFloat (S754_finite false 4503599627370496 (-50))) (VInt 2) 9);
      vm_compute; reflexivity.
Defined.

Lemma augmented_ok op s a b x y r n :
  getitem (reg s) a = inr x ->
  getitem (reg s) b = inr y ->
  op x y = inr r ->
  index (length (reg s)) a = inr n ->
  augmented op a (Some b) s = Ok tt (with_reg (<[n:=r]> (reg s)) s).
Proof.
  intros Ha Hb Hop Hn. unfold_handlers. run_monad.
  rewrite Ha. cbn. rewrite Hb. cbn. rewrite Hop. cbn.
  by rewrite (setitem_spec _ _ _ _ Hn).
Qed.

(** The digits allotted to a shift in range stay far below the limit. *)
Lemma shift_in_range_digits x y :
  shift_in_range x y ->
  digits x + y / digit_bits + (if y mod digit_bits =? 0 then 0 else 1) <= max_digits.
Proof.
  intros [Hy Hx]. unfold digits, digit_bits.
  assert (Z.log2 (Z.abs x) / 30 <= 2 ^ 60 / 30) as Hdx
    by (apply Z.div_le_mono; lia).
  assert (y / 30 <= 255 / 30) as Hdy by (apply Z.div_le_mono; lia).
  assert ((if y mod 30 =? 0 then 0 else 1) <= 1) as Hrem
    by (destruct (y mod 30 =? 0); lia).
  change (2 ^ 60 / 30) with 38430716820228232 in Hdx.
  change (255 / 30) with 8 in Hdy.
  change max_digits with 2305843009213693945. lia.
Qed.

Lemma lshift_in_range x y :
  shift_in_range x y -> Py.lshift (VInt x) (VInt y) = inr (VInt (Z.shiftl x y)).
Proof.
  intros Hxy. pose proof (shift_in_range_digits x y Hxy) as Hdigits.
  destruct Hxy as [Hy _]. unfold lshift.
  destruct (Z.ltb_spec y 0); [lia|].
  destruct (Z.eqb_spec x 0) as [-> | _]; [by rewrite Z.shiftl_0_l|].
  destruct (Z.ltb_spec max_digits
              (digits x + y / digit_bits + (if y mod digit_bits =? 0 then 0 else 1)));
    [lia|done].
Qed.

(** Each two-register arithmetic or logic handler is an augmented
    assignment with the Python operator that computes its [binop]. *)
Lemma binop_handler opcode f :
  binop opcode = Some f ->
  exists h op,
    branchtable !! opcode = Some h
    /\ (forall a b s, h a b s = augmented op a (Some b) s)
    /\ (forall x y, (opcode = SHL -> shift_in_range x y) ->
          op (VInt x) (VInt y) = inr (VInt (f x y))).
Proof.
  unfold binop.
  destruct (Z.eqb_spec opcode ADD) as [-> | _]; cbv iota;
    [intros [= <-]; exists add, Py.add; by repeat split|].
  destruct (Z.eqb_spec opcode SUB) as [-> | _]; cbv iota;
    [intros [= <-]; exists sub, Py.sub; by repeat split|].
  destruct (Z.eqb_spec opcode MUL) as [-> | _]; cbv iota;
    [intros [= <-]; exists mul, Py.mul; by repeat split|].
  destruct (Z.eqb_spec opcode AND) as [-> | _]; cbv iota;
    [intros [= <-]; exists andd, Py.and_; by repeat split|].
  destruct (Z.eqb_spec opcode OR) as [-> | _]; cbv iota;
    [intros [= <-]; exists orr, Py.or_; by repeat split|].
  destruct (Z.eqb_spec opcode XOR) as [-> | _]; cbv iota;
    [intros [= <-]; exists xor, Py.xor_; by repeat split|].
  destruct (Z.eqb_spec opcode SHL) as [-> | _]; cbv iota; [|done].
  intros [= <-]. exists shl, Py.lshift. repeat split.
  intros x y Hxy. by apply lshift_in_range, Hxy.
Qed.

(** C6, as stated, fails when both operands name the same register:
    register b is then the register that receives the result.  After
    LDI R0,1 the instruction ADD R0,R0 leaves 2 in R0. *)
Lemma alu_leaves_b_refuted :
  ~ (forall s opcode f a b x y,
       fetch s = Ok (VInt opcode, a, b) s ->
       binop opcode = Some f ->
       getitem (reg s) a = inr (VInt x) ->
       getitem (reg s) b = inr (VInt y) ->
       exists s', step s = Ok tt s'
         /\ getitem (reg s') a = inr (VInt (f x y))
         /\ getitem (reg s') b = inr (VInt y)).
Proof.
  intros H.
  destruct (H before_add_self ADD Z.add (VInt 0) (VInt 0) 1 1)
    as (s' & Hstep & _ & Hb); [reflexivity..|].
  vm_compute in Hstep. injection Hstep as <-. discriminate Hb.
Qed.

(** C6, amended.  With registers a and b holding the integers x and y
    (for SHL: a count y from 0 to 255 and an x of fewer than 2^60 binary
    digits), one iteration on ADD, SUB, MUL, AND, OR, XOR or SHL leaves in
    register a the sum, difference, product, bitwise and, or, exclusive or,
    or left shift of x and y, unmasked, and changes no other register:
    register b keeps y whenever a and b are different registers. *)
Theorem alu_binop_updates_a s opcode f a b x y p na nb :
  pc s = VInt p ->
  fetch s = Ok (VInt opcode, a, b) s ->
  binop opcode = Some f ->
  getitem (reg s) a = inr (VInt x) ->
  getitem (reg s) b = inr (VInt y) ->
  index (length (reg s)) a = inr na ->
  index (length (reg s)) b = inr nb ->
  (opcode = SHL -> shift_in_range x y) ->
  exists s', step s = Ok tt s'
    /\ getitem (reg s') a = inr (VInt (f x y))
    /\ (na <> nb -> getitem (reg s') b = inr (VInt y))
    /\ (forall k, k <> na -> reg s' !! k = reg s !! k)
    /\ pc s' = VInt (p + 3) /\ ram s' = ram s /\ fl s' = fl s.
Proof.
  intros Hp Hf Hbin Ha Hb Hna Hnb Hshl.
  destruct (binop_handler _ _ Hbin) as (h & op & Hh & Haug & Hop).
  assert (Z.land (Z.shiftr opcode 6) 3 + 1 = 3 /\ (Z.land (Z.shiftr opcode 4) 1 =? 1) = false)
    as [Hwidth Hsets].
  { revert Hbin. unfold binop.
    destruct (Z.eqb_spec opcode ADD) as [-> | _]; [by split|cbv iota].
    destruct (Z.eqb_spec opcode SUB) as [-> | _]; [by split|cbv iota].
    destruct (Z.eqb_spec opcode MUL) as [-> | _]; [by split|cbv iota].
    destruct (Z.eqb_spec opcode AND) as [-> | _]; [by split|cbv iota].
    destruct (Z.eqb_spec opcode OR) as [-> | _]; [by split|cbv iota].
    destruct (Z.eqb_spec opcode XOR) as [-> | _]; [by split|cbv iota].
    destruct (Z.eqb_spec opcode SHL) as [-> | _]; [by split|done]. }
  eexists. split.
  { eapply step_wired_ok; [exact Hf|exact Hh| |].
    - rewrite Haug. apply augmented_ok with (x:=VInt x) (y:=VInt y); fields; eauto.
    - apply advance_ok with (p:=p); fields; [done|exact Hsets]. }
  fields. rewrite Hwidth. repeat split; try done.
  - by apply getitem_insert_eq.
  - intros Hne. by apply getitem_insert_ne with (i:=a) (m:=nb).
  - intros k Hk. by rewrite list_lookup_insert_ne.
Qed.

Lemma alu_binop_updates_a_witness :
  exists s', step before_shl = Ok tt s'
    /\ getitem (reg s') (VInt 0) = inr (VInt (Z.shiftl 3 4))
    /\ (0%nat <> 1%nat -> getitem (reg s') (VInt 1) = inr (VInt 4))
    /\ (forall k, k <> 0%nat -> reg s' !! k = reg before_shl !! k)
    /\ pc s' = VInt (6 + 3) /\ ram s' = ram before_shl /\ fl s' = fl before_shl.
Proof.
  apply (alu_binop_updates_a before_shl SHL Z.shiftl (VInt 0) (VInt 1) 3 4 6 0%nat 1%nat);
    try reflexivity.
  intros _. split; [lia|reflexivity].
Defined.

(** ** What an iteration leaves alone *)

Lemma wired_NoDup : NoDup (wired.*1).
Proof. apply (bool_decide_unpack _). vm_compute. reflexivity. Qed.

Lemma branchtable_wired z h : branchtable !! z = Some h <-> (z, h) ∈ wired.
Proof. unfold branchtable. symmetry. apply elem_of_list_to_map, wired_NoDup. Qed.

(** A property [I] of the machine that does not depend on the program
    counter, on [halted], on [setsPC] or on the output, and that survives
    item assignments to memory and registers, survives every method that
    does not write the flags. *)
Section Frame.
Variable I : t -> Prop.
Hypothesis I_pc : forall v s, I s -> I (with_pc v s).
Hypothesis I_halted : forall b s, I s -> I (with_halted b s).
Hypothesis I_setsPC : forall b s, I s -> I (with_setsPC b s).
Hypothesis I_stdout : forall o s, I s -> I (with_stdout o s).
Hypothesis I_ram :
  forall l i v s, setitem (ram s) i v = inr l -> I s -> I (with_ram l s).
Hypothesis I_reg :
  forall l i v s, setitem (reg s) i v = inr l -> I s -> I (with_reg l s).
(** Whether [I] also survives a write to the flags. *)
Variable flags_free : Prop.
Hypothesis I_fl : flags_free -> forall z s, I s -> I (with_fl z s).

Lemma preserves_bind {A B} (m : M A) (k : A -> M B) :
  preserves I m -> (forall a, preserves I (k a)) -> preserves I (m ≫= k).
Proof.
  intros Hm Hk s Hs. rewrite bind_unfold. specialize (Hm s Hs).
  destruct (m s); cbn in *; [by apply Hk|done].
Qed.

Lemma preserves_ret {A} (a : A) : preserves I (mret a).
Proof. by intros s Hs. Qed.

Lemma preserves_raise {A} e : preserves I (@raise A e).
Proof. by intros s Hs. Qed.

Lemma preserves_lift {A} (r : res A) : preserves I (lift r).
Proof. destruct r; [apply preserves_raise|apply preserves_ret]. Qed.

Lemma preserves_get {A} (f : t -> A) : preserves I (get f).
Proof. by intros s Hs. Qed.

Lemma preserves_set_pc v : preserves I (set_pc v).
Proof. intros s Hs. by apply I_pc. Qed.

Lemma preserves_set_halted b : preserves I (set_halted b).
Proof. intros s Hs. by apply I_halted. Qed.

Lemma preserves_set_setsPC b : preserves I (set_setsPC b).
Proof. intros s Hs. by apply I_setsPC. Qed.

Lemma preserves_print o : preserves I (print o).
Proof. intros s Hs. by apply I_stdout. Qed.

Lemma preserves_set_fl z : flags_free -> preserves I (set_fl z).
Proof. intros Hfree s Hs. by apply I_fl. Qed.

Lemma preserves_reg_get i : preserves I (reg_get i).
Proof. apply preserves_bind; [apply preserves_get|intros; apply preserves_lift]. Qed.

Lemma preserves_ram_read i : preserves I (ram_read i).
Proof. apply preserves_bind; [apply preserves_get|intros; apply preserves_lift]. Qed.

Lemma preserves_reg_put i v : preserves I (reg_put i v).
Proof.
  intros s Hs. unfold reg_put. run_monad.
  destruct (setitem (reg s) i v) eqn:E; cbn; [done|]. by eapply I_reg.
Qed.

Lemma preserves_ram_write v i : preserves I (ram_write v i).
Proof.
  intros s Hs. unfold ram_write. run_monad.
  destruct (setitem (ram s) i v) eqn:E; cbn; [done|]. by eapply I_ram.
Qed.

Lemma preserves_reg_get_opt i : preserves I (reg_get_opt i).
Proof. destruct i; [apply preserves_reg_get|apply preserves_raise]. Qed.

Ltac frame :=
  repeat first
    [ apply preserves_ret | apply preserves_raise | apply preserves_lift
    | apply preserves_get | apply preserves_set_pc | apply preserves_set_halted
    | apply preserves_set_setsPC | apply preserves_print
    | apply preserves_reg_get | apply preserves_ram_read
    | apply preserves_reg_get_opt
    | apply preserves_reg_put | apply preserves_ram_write
    | apply preserves_bind; [|intros ?]
    | match goal with
      | |- preserves _ (if ?b then _ else _) => destruct b
      | |- preserves _ (match ?x with _ => _ end) => destruct x
      end ].

(** Every ALU operation but the comparison, which writes the flags. *)
Lemma preserves_alu op a b :
  flags_free \/ op <> "CMP"%string -> preserves I (alu op a b).
Proof.
  intros Hop. unfold alu.
  repeat match goal with
         | |- preserves _ (if String.eqb op ?x then _ else _) =>
             destruct (String.eqb_spec op x); [try (frame; fail)|]
         end; [|frame].
  destruct Hop as [Hfree|Hop]; [|done].
  unfold fl_or. frame; by apply preserves_set_fl.
Qed.

(** Every wired handler but [cmp]. *)
Lemma preserves_handler z h a b :
  (z, h) ∈ wired -> flags_free \/ z <> CMP -> preserves I (h a b).
Proof.
  unfold wired. intros Hin Hz.
  repeat (apply elem_of_cons in Hin as [[= -> ->] | Hin];
          [first [ apply preserves_alu;
                   first [by right | destruct Hz as [?|?]; [by left|done]]
                 | unfold_handlers; frame ]|]).
  by apply elem_of_nil in Hin.
Qed.

Lemma preserves_fetch : preserves I fetch.
Proof. unfold fetch. frame. Qed.

Lemma preserves_dispatch ir a b :
  flags_free \/ ir <> VInt CMP ->
  preserves I (match dispatch ir with
               | Some h => h a b
               | None => p ← get pc; print (Invalid ir p)
               end).
Proof.
  intros Hir. destruct ir as [z|f]; cbn [dispatch]; [|frame].
  destruct (branchtable !! z) as [h|] eqn:Hh; [|frame].
  apply branchtable_wired in Hh.
  apply preserves_handler with (z:=z); [done|].
  destruct Hir as [?|?]; [by left|right; congruence].
Qed.

Lemma preserves_execute ir a b :
  flags_free \/ ir <> VInt CMP -> preserves I (execute ir a b).
Proof.
  intros Hir. unfold execute.
  do 6 (apply preserves_bind; [frame|intros ?]).
  apply preserves_bind; [by apply preserves_dispatch|intros ?]. frame.
Qed.

(** One iteration on anything but CMP keeps [I], returning or raising. *)
Lemma preserves_step s ir a b :
  fetch s = Ok (ir, a, b) s -> ir <> VInt CMP -> I s -> I (state_of (step s)).
Proof.
  intros Hf Hir Hs. rewrite (step_fetched _ _ _ _ Hf).
  apply preserves_execute; [by right|done].
Qed.

Lemma preserves_step_free : flags_free -> preserves I step.
Proof.
  intros Hfree. unfold step. apply preserves_bind; [apply preserves_fetch|].
  intros [[ir a] b]. apply preserves_execute. by left.
Qed.

Lemma preserves_load program : preserves I (load program).
Proof.
  unfold load. generalize 0. induction program as [|val rest IH]; intros address.
  - apply preserves_ret.
  - cbn [load_from]. apply preserves_bind; [apply preserves_ram_write|].
    intros _. apply IH.
Qed.
End Frame.

(** C9. One iteration on any instruction byte other than CMP, wired or
    not, leaves the flags as they were, whether the handler returns or
    raises: no method but the comparison assigns [fl]. *)
Theorem flags_changed_only_by_cmp s ir a b :
  fetch s = Ok (ir, a, b) s ->
  ir <> VInt CMP ->
  fl (state_of (step s)) = fl s.
Proof.
  intros Hf Hir.
  by apply (preserves_step (fun s' => fl s' = fl s)) with (flags_free:=False)
             (ir:=ir) (a:=a) (b:=b).
Qed.

Lemma flags_changed_only_by_cmp_witness :
  fl (state_of (step before_jeq)) = fl before_jeq.
Proof.
  apply (flags_changed_only_by_cmp before_jeq (VInt JEQ) (VInt 1) (VInt 0));
    [reflexivity|discriminate].
Defined.

(** The flags a comparison has set are still there after the jump. *)
Example flags_survive_jump : fl before_jeq = EQ /\ fl (steps 1 before_jeq) = EQ.
Proof. split; reflexivity. Qed.

(** ** Well-formed machines *)

Lemma setitem_length l i v l' : setitem l i v = inr l' -> length l' = length l.
Proof.
  unfold setitem. destruct (index _ i); [done|]. intros [= <-].
  apply length_insert.
Qed.

Lemma preserves_wf_step : preserves wf step.
Proof.
  apply preserves_step_free with (flags_free:=True); try done.
  - intros l i v s Hset [Hram Hreg]. split; [|done]. cbn.
    by rewrite (setitem_length _ _ _ _ Hset).
  - intros l i v s Hset [Hram Hreg]. split; [done|]. cbn.
    by rewrite (setitem_length _ _ _ _ Hset).
Qed.

Lemma preserves_wf_load program : preserves wf (load program).
Proof.
  apply preserves_load; try done.
  intros l i v s Hset [Hram Hreg]. split; [|done]. cbn.
  by rewrite (setitem_length _ _ _ _ Hset).
Qed.

Lemma reachable_by_wf ok s : reachable_by ok s -> wf s.
Proof.
  induction 1 as [program s Hbytes Hload | s s' Hreach IH Hrun Hok Hstep].
  - change s with (state_of (Ok tt s)). rewrite <- Hload.
    by apply preserves_wf_load.
  - change s' with (state_of (Ok tt s')). rewrite <- Hstep.
    by apply preserves_wf_step.
Qed.

(** ** Reading memory *)

Lemma getitem_inside l z :
  - Z.of_nat (length l) <= z < Z.of_nat (length l) ->
  exists v, getitem l (VInt z) = inr v.
Proof.
  intros Hz. destruct (decide (0 <= z)) as [Hpos|Hneg].
  - destruct (getitem_total l (VInt z) (Z.to_nat z)) as (v & Hv & _);
      [apply index_nonneg; lia|eauto].
  - destruct (getitem_total l (VInt z) (Z.to_nat (z + Z.of_nat (length l))))
      as (v & Hv & _); [apply index_negative; lia|eauto].
Qed.

Lemma getitem_outside l z :
  Z.of_nat (length l) <= z -> getitem l (VInt z) = inl IndexError.
Proof. intros Hz. unfold getitem. by rewrite index_outside by lia. Qed.

(** [load] writes the program from address 0 upwards and nothing else:
    every cell past the program still holds the 0 of the constructor. *)
Lemma load_from_above program : forall address s s' k,
  load_from address program s = Ok tt s' ->
  0 <= address ->
  (Z.to_nat address + length program <= k)%nat ->
  ram s' !! k = ram s !! k.
Proof.
  induction program as [|val rest IH]; intros address s s' k Hload Haddr Hk.
  - by injection Hload as <-.
  - cbn [load_from] in Hload. rewrite bind_unfold in Hload.
    unfold ram_write in Hload at 1. run_monad.
    destruct (setitem (ram s) (VInt address) (VInt val)) as [e|l] eqn:Hset;
      [done|]. cbn in Hload.
    unfold setitem in Hset.
    destruct (index (length (ram s)) (VInt address)) as [e|n] eqn:Hn; [done|].
    injection Hset as <-.
    assert (n = Z.to_nat address) as ->.
    { unfold index in Hn.
      destruct (Z.leb_spec 0 address), (Z.ltb_spec address (Z.of_nat (length (ram s))));
        cbn in Hn; try lia; [congruence|].
      destruct (Z.leb_spec (- Z.of_nat (length (ram s))) address),
        (Z.ltb_spec address 0); cbn in Hn; try done; lia. }
    rewrite (IH (address + 1) _ s' k Hload) by (cbn [length] in Hk; lia).
    cbn. apply list_lookup_insert_ne. cbn [length] in Hk. lia.
Qed.

Lemma load_zero_fill program s k :
  load program init = Ok tt s ->
  (length program <= k < 256)%nat ->
  ram s !! k = Some (VInt 0).
Proof.
  intros Hload Hk. unfold load in Hload.
  rewrite (load_from_above _ _ _ _ k Hload) by (cbn; lia).
  cbn [init ram]. apply lookup_replicate_2. lia.
Qed.

Lemma before_fault_reachable : reachable before_fault.
Proof.
  apply reach_step with (s:=steps 1 (boot [LDI; 0; 254; JMP; 0]));
    [|vm_compute; reflexivity..].
  apply reach_step with (s:=boot [LDI; 0; 254; JMP; 0]);
    [|vm_compute; reflexivity..].
  apply reach_boot with (program:=[LDI; 0; 254; JMP; 0]);
    [|vm_compute; reflexivity].
  apply (bool_decide_unpack _). vm_compute. reflexivity.
Qed.

(** C8, as stated, fails: a running machine can reach a program counter
    from which the operand reads leave the 256-cell memory.  After
    LDI R0,254; JMP R0 the loop reads addresses 254, 255 and 256, and the
    last read raises [IndexError], which ends [run]. *)
Lemma fetch_always_succeeds_refuted :
  ~ (forall s, reachable s -> halted s = false ->
       exists ir a b, fetch s = Ok (ir, a, b) s).
Proof.
  intros H.
  destruct (H before_fault before_fault_reachable) as (ir & a & b & Hfetch);
    [vm_compute; reflexivity|].
  vm_compute in Hfetch. discriminate Hfetch.
Qed.

(** C8, amended.  In every reachable state whose program counter [p] lies
    in the memory's index range, the three reads of the loop succeed when
    [p + 2] is at most 255, wherever the loaded program ends, and the
    operand read raises [IndexError] when [p] is 254 or 255. *)
Theorem fetch_within_memory s p :
  reachable s ->
  pc s = VInt p ->
  -256 <= p <= 255 ->
  (p + 2 <= 255 -> exists ir a b, fetch s = Ok (ir, a, b) s)
  /\ (255 < p + 2 -> fetch s = Raise IndexError s).
Proof.
  intros Hreach Hp Hrange.
  destruct (reachable_by_wf _ _ Hreach) as [Hram _].
  destruct (getitem_inside (ram s) p) as (ir & Hir); [lia|].
  split.
  - intros Hin.
    destruct (getitem_inside (ram s) (p + 1)) as (a & Ha); [lia|].
    destruct (getitem_inside (ram s) (p + 2)) as (b & Hb); [lia|].
    exists ir, a, b. by apply fetch_intro with (p:=p).
  - intros Hout. unfold fetch, ram_read. run_monad. rewrite Hp, Hir. cbn.
    destruct (decide (p = 255)) as [-> | Hne].
    + by rewrite getitem_outside by lia.
    + destruct (getitem_inside (ram s) (p + 1)) as (a & Ha); [lia|].
      rewrite Ha. cbn. by rewrite getitem_outside by lia.
Qed.

Lemma fetch_within_memory_witness :
  (254 + 2 <= 255 -> exists ir a b, fetch before_fault = Ok (ir, a, b) before_fault)
  /\ (255 < 254 + 2 -> fetch before_fault = Raise IndexError before_fault).
Proof.
  apply (fetch_within_memory before_fault 254);
    [exact before_fault_reachable|vm_compute; reflexivity|lia].
Defined.

(** ** Instruction bytes without a handler *)

(** The decoded [setsPC] is bit 4 of the instruction byte. *)
Lemma setsPC_bit z : (Z.land (Z.shiftr z 4) 1 =? 1) = Z.testbit z 4.
Proof.
  change 1 with EQ at 1. rewrite land_EQ, Z.shiftr_spec by lia.
  change (0 + 4) with 4. by destruct (Z.testbit z 4).
Qed.

(** [fetch] looks at the program counter and at memory only. *)
Lemma fetch_same s s' f :
  pc s' = pc s -> ram s' = ram s -> fetch s = Ok f s -> fetch s' = Ok f s'.
Proof.
  destruct f as [[ir a] b]. intros Hpc Hram Hf.
  destruct (fetch_inv _ _ _ _ _ Hf) as (_ & p & Hp & H0 & H1 & H2).
  apply fetch_intro with (p:=p); congruence.
Qed.

(** One iteration on a byte that is not in the dispatch table prints the
    diagnostic and touches nothing but [setsPC] and the program counter,
    which moves on only when bit 4 of the byte is clear. *)
Lemma step_unwired s z a b p :
  pc s = VInt p ->
  fetch s = Ok (VInt z, a, b) s ->
  branchtable !! z = None ->
  step s = Ok tt
    (let s1 := with_stdout (stdout s ++ [Invalid (VInt z) (VInt p)])
                 (with_setsPC (Z.testbit z 4) s) in
     if Z.testbit z 4 then s1
     else with_pc (VInt (p + (Z.land (Z.shiftr z 6) 3 + 1))) s1).
Proof.
  intros Hp Hf Hz. rewrite (step_fetched _ _ _ _ Hf), execute_int.
  unfold dispatch. rewrite Hz, setsPC_bit.
  destruct (Z.testbit z 4); run_monad; rewrite ?Hp; reflexivity.
Qed.

Lemma unwired_skipped s z a b p :
  pc s = VInt p ->
  fetch s = Ok (VInt z, a, b) s ->
  branchtable !! z = None ->
  Z.testbit z 4 = false ->
  exists s', step s = Ok tt s'
    /\ pc s' = VInt (p + (Z.land (Z.shiftr z 6) 3 + 1))
    /\ ram s' = ram s /\ reg s' = reg s /\ fl s' = fl s
    /\ halted s' = halted s
    /\ stdout s' = stdout s ++ [Invalid (VInt z) (VInt p)].
Proof.
  intros Hp Hf Hz Hbit. eexists. split; [by apply step_unwired with (a:=a) (b:=b)|].
  by rewrite Hbit.
Qed.

Lemma unwired_stalls s z a b p n :
  halted s = false ->
  pc s = VInt p ->
  fetch s = Ok (VInt z, a, b) s ->
  branchtable !! z = None ->
  Z.testbit z 4 = true ->
  exists s', run n s = Running s'
    /\ pc s' = VInt p /\ ram s' = ram s /\ reg s' = reg s /\ fl s' = fl s
    /\ stdout s' = stdout s ++ replicate n (Invalid (VInt z) (VInt p)).
Proof.
  revert s. induction n as [|n IH]; intros s Hrun Hp Hf Hz Hbit.
  - exists s. cbn [run]. rewrite Hrun. by rewrite app_nil_r.
  - cbn [run]. rewrite Hrun, (step_unwired _ _ _ _ _ Hp Hf Hz), Hbit. cbv zeta.
    set (s1 := with_stdout _ _).
    destruct (IH s1) as (s' & Hs' & Hpc & Hram & Hreg & Hfl & Hout); try done.
    { by apply fetch_same with (s:=s). }
    exists s'. split; [done|]. repeat split; try done.
    rewrite Hout. cbn. by rewrite <- app_assoc.
Qed.

(** C2, on the code.  The byte 0xFF has no handler and has bit 4 set, so
    [setsPC] stays set and the program counter is not advanced: however
    many iterations the loop takes, it is still running at address 0 and
    has printed the same diagnostic at every iteration. *)
Theorem unknown_opcode_0xFF_stalls n :
  exists s, run n (boot [0xFF]) = Running s
    /\ pc s = VInt 0
    /\ stdout s = replicate n (Invalid (VInt 0xFF) (VInt 0)).
Proof.
  assert (halted (boot [0xFF]) = false) as Hrun by (vm_compute; reflexivity).
  assert (pc (boot [0xFF]) = VInt 0) as Hp by (vm_compute; reflexivity).
  assert (fetch (boot [0xFF]) = Ok (VInt 0xFF, VInt 0, VInt 0) (boot [0xFF]))
    as Hf by (vm_compute; reflexivity).
  assert (branchtable !! 0xFF = None) as Hz by (vm_compute; reflexivity).
  assert (Z.testbit 0xFF 4 = true) as Hbit by reflexivity.
  destruct (unwired_stalls _ _ _ _ _ n Hrun Hp Hf Hz Hbit)
    as (s & Hs & Hpc & _ & _ & _ & Hout).
  exists s. split; [exact Hs|]. split; [exact Hpc|].
  rewrite Hout. reflexivity.
Qed.

(** The same byte read as the spec has it would leave the program counter
    at 0 + 1 + 3 = 4 after one iteration. *)
Example unknown_opcode_0xFF_first_step :
  exists s, step (boot [0xFF]) = Ok tt s
    /\ pc s = VInt 0 /\ pc s <> VInt (0 + (1 + Z.land (Z.shiftr 0xFF 6) 3)).
Proof. eexists. split; [vm_compute; reflexivity|]. by split. Qed.

(** ** Values that stay in the byte range *)

Lemma byte_inv v : byte v -> exists z, v = VInt z /\ 0 <= z <= 255.
Proof. destruct v as [z|f]; [eauto|done]. Qed.

Lemma getitem_byte l i v : Forall byte l -> getitem l i = inr v -> byte v.
Proof.
  intros Hl (n & _ & Hv)%getitem_spec. by eapply Forall_lookup_1.
Qed.

Lemma setitem_byte l i v l' :
  Forall byte l -> byte v -> setitem l i v = inr l' -> Forall byte l'.
Proof.
  unfold setitem. intros Hl Hv. destruct (index _ i); [done|].
  intros [= <-]. by apply Forall_insert.
Qed.

Lemma land_byte x y : 0 <= x <= 255 -> 0 <= y <= 255 -> 0 <= Z.land x y <= 255.
Proof.
  intros Hx Hy. split; [apply Z.land_nonneg; lia|].
  destruct (decide (Z.land x y = 0)) as [->|Hne]; [lia|].
  assert (0 < Z.land x y) by (pose proof (Z.land_nonneg x y); lia).
  assert (0 < x) as Hx0 by (destruct (decide (x = 0)) as [->|]; [by rewrite Z.land_0_l in Hne|lia]).
  enough (Z.land x y < 2 ^ 8) by lia.
  apply Z.log2_lt_pow2; [done|].
  pose proof (Z.log2_land x y ltac:(lia) ltac:(lia)).
  assert (Z.log2 x < 8) by (apply Z.log2_lt_pow2; lia). lia.
Qed.

Lemma lor_byte x y : 0 <= x <= 255 -> 0 <= y <= 255 -> 0 <= Z.lor x y <= 255.
Proof.
  intros Hx Hy. split; [apply Z.lor_nonneg; lia|].
  destruct (decide (Z.lor x y = 0)) as [->|Hne]; [lia|].
  assert (0 < Z.lor x y) by (pose proof (proj2 (Z.lor_nonneg x y)); lia).
  enough (Z.lor x y < 2 ^ 8) by lia.
  apply Z.log2_lt_pow2; [done|].
  rewrite Z.log2_lor by lia.
  assert (Z.log2 x < 8).
  { destruct (decide (x = 0)) as [->|]; [done|apply Z.log2_lt_pow2; lia]. }
  assert (Z.log2 y < 8).
  { destruct (decide (y = 0)) as [->|]; [done|apply Z.log2_lt_pow2; lia]. }
  lia.
Qed.

Lemma lxor_byte x y : 0 <= x <= 255 -> 0 <= y <= 255 -> 0 <= Z.lxor x y <= 255.
Proof.
  intros Hx Hy. split; [apply Z.lxor_nonneg; lia|].
  destruct (decide (Z.lxor x y = 0)) as [->|Hne]; [lia|].
  assert (0 < Z.lxor x y) by (pose proof (proj2 (Z.lxor_nonneg x y)); lia).
  enough (Z.lxor x y < 2 ^ 8) by lia.
  apply Z.log2_lt_pow2; [done|].
  pose proof (Z.log2_lxor x y ltac:(lia) ltac:(lia)).
  assert (Z.log2 x < 8).
  { destruct (decide (x = 0)) as [->|]; [done|apply Z.log2_lt_pow2; lia]. }
  assert (Z.log2 y < 8).
  { destruct (decide (y = 0)) as [->|]; [done|apply Z.log2_lt_pow2; lia]. }
  lia.
Qed.

(** Inversion of a method that returned. *)
Lemma bind_inv {A B} (m : M A) (k : A -> M B) s b s' :
  (m ≫= k) s = Ok b s' -> exists a s1, m s = Ok a s1 /\ k a s1 = Ok b s'.
Proof. rewrite bind_unfold. destruct (m s) as [a s1|e s1]; [eauto|done]. Qed.

Lemma ret_inv {A} (a b : A) s s' : (mret a : M A) s = Ok b s' -> b = a /\ s' = s.
Proof. by intros [= -> ->]. Qed.

Lemma lift_inv {A} (r : res A) a s s' : lift r s = Ok a s' -> r = inr a /\ s' = s.
Proof. destruct r; [done|]. by intros [= -> ->]. Qed.

Lemma get_inv {A} (f : t -> A) a s s' : get f s = Ok a s' -> a = f s /\ s' = s.
Proof. by intros [= <- <-]. Qed.

Lemma put_inv (g : t -> t) u s s' : put g s = Ok u s' -> s' = g s.
Proof. by intros [= <-]. Qed.

Lemma reg_get_inv i v s s' :
  reg_get i s = Ok v s' -> getitem (reg s) i = inr v /\ s' = s.
Proof.
  unfold reg_get. intros (l & s1 & [-> ->]%get_inv & H)%bind_inv.
  by apply lift_inv in H.
Qed.

Lemma ram_read_inv i v s s' :
  ram_read i s = Ok v s' -> getitem (ram s) i = inr v /\ s' = s.
Proof.
  unfold ram_read. intros (l & s1 & [-> ->]%get_inv & H)%bind_inv.
  by apply lift_inv in H.
Qed.

Lemma reg_put_inv i v u s s' :
  reg_put i v s = Ok u s' ->
  exists l, setitem (reg s) i v = inr l /\ s' = with_reg l s.
Proof.
  unfold reg_put. intros (l & s1 & [-> ->]%get_inv & H)%bind_inv.
  apply bind_inv in H as (l' & s2 & [Hl ->]%lift_inv & H).
  apply put_inv in H. eauto.
Qed.

Lemma ram_write_inv v i u s s' :
  ram_write v i s = Ok u s' ->
  exists l, setitem (ram s) i v = inr l /\ s' = with_ram l s.
Proof.
  unfold ram_write. intros (l & s1 & [-> ->]%get_inv & H)%bind_inv.
  apply bind_inv in H as (l' & s2 & [Hl ->]%lift_inv & H).
  apply put_inv in H. eauto.
Qed.

Lemma getitem_byte_int l i v :
  Forall byte l -> getitem l i = inr v -> exists z, v = VInt z /\ 0 <= z <= 255.
Proof. intros Hl Hv. by apply byte_inv, (getitem_byte l i). Qed.

Lemma setitem_bytes l i v l' :
  Forall byte l -> byte v -> setitem l i v = inr l' ->
  Forall byte l' /\ length l' = length l.
Proof.
  intros Hl Hv Hset. split; [by eapply setitem_byte|by eapply setitem_length].
Qed.

Lemma augmented_const_inv op r c u s s' :
  augmented_const op r c s = Ok u s' ->
  exists x y l,
    getitem (reg s) r = inr x /\ op x (VInt c) = inr y
    /\ setitem (reg s) r y = inr l /\ s' = with_reg l s.
Proof.
  unfold augmented_const. intros H.
  apply bind_inv in H as (x & s1 & [Hx ->]%reg_get_inv & H).
  apply bind_inv in H as (y & s2 & [Hy ->]%lift_inv & H).
  apply reg_put_inv in H as (l & Hl & ->). eauto 10.
Qed.

Lemma augmented_inv op ra rb u s s' :
  augmented op ra (Some rb) s = Ok u s' ->
  exists x y r l,
    getitem (reg s) ra = inr x /\ getitem (reg s) rb = inr y
    /\ op x y = inr r /\ setitem (reg s) ra r = inr l /\ s' = with_reg l s.
Proof.
  unfold augmented, reg_get_opt. intros H.
  apply bind_inv in H as (x & s1 & [Hx ->]%reg_get_inv & H).
  apply bind_inv in H as (y & s2 & [Hy ->]%reg_get_inv & H).
  apply bind_inv in H as (r & s3 & [Hr ->]%lift_inv & H).
  apply reg_put_inv in H as (l & Hl & ->). eauto 10.
Qed.

Lemma pshVal_bytes val s s' :
  bytes_inv s -> byte val ->
  getitem (reg s) SP <> inr (VInt 0) ->
  pshVal val s = Ok tt s' -> bytes_inv s'.
Proof.
  intros ([Hlram Hlreg] & Hreg & Hram & Hpc) Hval Hsp H. unfold pshVal in H.
  apply bind_inv in H as (u & s1 & Hdec & H).
  apply augmented_const_inv in Hdec as (x & y & l & Hx & Hy & Hl & ->).
  apply bind_inv in H as (addr & s2 & [Haddr ->]%reg_get_inv & H).
  apply ram_write_inv in H as (l' & Hl' & ->). cbn in Haddr, Hl'.
  destruct (getitem_byte_int _ _ _ Hreg Hx) as (sp & -> & Hrange).
  injection Hy as <-.
  assert (sp <> 0) by congruence.
  assert (byte (VInt (sp - 1))) as Hbyte by (cbn; lia).
  destruct (setitem_bytes _ _ _ _ Hreg Hbyte Hl) as [Hreg' Hlen].
  destruct (setitem_bytes _ _ _ _ Hram Hval Hl') as [Hram' Hlen'].
  split; [split; cbn; congruence|]. done.
Qed.

Lemma popVal_bytes v s s' :
  bytes_inv s ->
  getitem (reg s) SP <> inr (VInt 255) ->
  popVal s = Ok v s' -> bytes_inv s' /\ byte v.
Proof.
  intros ([Hlram Hlreg] & Hreg & Hram & Hpc) Hsp H. unfold popVal in H.
  apply bind_inv in H as (addr & s1 & [Haddr ->]%reg_get_inv & H).
  apply bind_inv in H as (val & s2 & [Hval ->]%ram_read_inv & H).
  apply bind_inv in H as (u & s3 & Hinc & H).
  apply augmented_const_inv in Hinc as (top & y & l & Hx & Hy & Hl & ->).
  apply ret_inv in H as [-> ->].
  destruct (getitem_byte_int _ _ _ Hreg Hx) as (sp & -> & Hrange).
  injection Hy as <-.
  assert (sp <> 255) by congruence.
  assert (byte (VInt (sp + 1))) as Hbyte by (cbn; lia).
  destruct (setitem_bytes _ _ _ _ Hreg Hbyte Hl) as [Hreg' Hlen].
  split; [|exact (getitem_byte _ _ _ Hram Hval)].
  split; [split; cbn; congruence|]. done.
Qed.

Lemma bytes_inv_frame s s' :
  bytes_inv s ->
  ram s' = ram s -> reg s' = reg s ->
  (exists p, pc s' = VInt p /\ 0 <= p) ->
  bytes_inv s'.
Proof.
  intros ([Hlram Hlreg] & Hreg & Hram & Hpc) Eram Ereg Hpc'.
  unfold bytes_inv, wf. by rewrite Eram, Ereg.
Qed.

Lemma bytes_inv_pc s : bytes_inv s -> exists p, pc s = VInt p /\ 0 <= p.
Proof. by intros (_ & _ & _ & Hpc). Qed.

Lemma jump_bytes a s s' u :
  bytes_inv s ->
  (v ← reg_get a; set_pc v) s = Ok u s' -> bytes_inv s'.
Proof.
  intros Hinv H.
  apply bind_inv in H as (v & s1 & [Hv ->]%reg_get_inv & H).
  apply put_inv in H as ->.
  destruct Hinv as (Hwf & Hreg & Hram & Hpc).
  destruct (getitem_byte_int _ _ _ Hreg Hv) as (z & -> & Hz).
  split; [done|]. split; [done|]. split; [done|]. exists z. cbn. split; [done|lia].
Qed.

Lemma hlt_bytes a b s s' : bytes_inv s -> hlt a b s = Ok tt s' -> bytes_inv s'.
Proof. intros Hinv ->%put_inv. by apply (bytes_inv_frame s); [| | |apply bytes_inv_pc]. Qed.

Lemma prn_bytes a b s s' : bytes_inv s -> prn a b s = Ok tt s' -> bytes_inv s'.
Proof.
  intros Hinv H. unfold prn in H.
  apply bind_inv in H as (v & s1 & [Hv ->]%reg_get_inv & H).
  apply put_inv in H as ->.
  by apply (bytes_inv_frame s); [| | |apply bytes_inv_pc].
Qed.

Lemma ldi_bytes a b s s' :
  byte b -> bytes_inv s -> ldi a b s = Ok tt s' -> bytes_inv s'.
Proof.
  intros Hb ([Hlram Hlreg] & Hreg & Hram & Hpc) H. unfold ldi in H.
  apply reg_put_inv in H as (l & Hl & ->).
  destruct (setitem_bytes _ _ _ _ Hreg Hb Hl) as [Hreg' Hlen].
  split; [split; cbn; congruence|]. done.
Qed.

Lemma psh_bytes a b s s' :
  getitem (reg s) SP <> inr (VInt 0) ->
  bytes_inv s -> psh a b s = Ok tt s' -> bytes_inv s'.
Proof.
  intros Hsp Hinv H. unfold psh in H.
  apply bind_inv in H as (v & s1 & [Hv ->]%reg_get_inv & H).
  apply (pshVal_bytes v s); try done.
  destruct Hinv as (_ & Hreg & _). by apply (getitem_byte (reg s) a).
Qed.

Lemma pop_bytes a b s s' :
  getitem (reg s) SP <> inr (VInt 255) ->
  bytes_inv s -> pop a b s = Ok tt s' -> bytes_inv s'.
Proof.
  intros Hsp Hinv H. unfold pop in H.
  apply bind_inv in H as (v & s1 & Hpop & H).
  destruct (popVal_bytes _ _ _ Hinv Hsp Hpop) as [Hinv1 Hv].
  apply reg_put_inv in H as (l & Hl & ->).
  destruct Hinv1 as ([Hlram Hlreg] & Hreg & Hram & Hpc).
  destruct (setitem_bytes _ _ _ _ Hreg Hv Hl) as [Hreg' Hlen].
  split; [split; cbn; congruence|]. done.
Qed.

Lemma call_bytes a b s s' :
  getitem (reg s) SP <> inr (VInt 0) ->
  (exists p, pc s = VInt p /\ 0 <= p /\ p + 2 <= 255) ->
  bytes_inv s -> call a b s = Ok tt s' -> bytes_inv s'.
Proof.
  intros Hsp (p & Hp & Hp0 & Hp2) Hinv H. unfold call in H.
  apply bind_inv in H as (p' & s1 & [-> ->]%get_inv & H).
  apply bind_inv in H as (r & s1 & [Hr ->]%lift_inv & H).
  apply bind_inv in H as (u & s1 & Hpush & H).
  rewrite Hp in Hr. injection Hr as <-. destruct u.
  apply (pshVal_bytes _ _ _ Hinv) in Hpush; [|cbn; lia|done].
  by apply jump_bytes in H.
Qed.

Lemma ret_bytes a b s s' :
  getitem (reg s) SP <> inr (VInt 255) ->
  bytes_inv s -> ret a b s = Ok tt s' -> bytes_inv s'.
Proof.
  intros Hsp Hinv H. unfold ret in H.
  apply bind_inv in H as (v & s1 & Hpop & H).
  destruct (popVal_bytes _ _ _ Hinv Hsp Hpop) as [Hinv1 Hv].
  apply put_inv in H as ->.
  apply byte_inv in Hv as (z & -> & Hz).
  apply (bytes_inv_frame s1); [done..|]. exists z. split; [done|lia].
Qed.

Lemma jeq_bytes a b s s' : bytes_inv s -> jeq a b s = Ok tt s' -> bytes_inv s'.
Proof.
  intros Hinv H. unfold jeq in H.
  apply bind_inv in H as (f & s1 & [-> ->]%get_inv & H).
  destruct (negb _); [by apply jump_bytes in H|].
  apply put_inv in H as ->.
  by apply (bytes_inv_frame s); [| | |apply bytes_inv_pc].
Qed.

Lemma jne_bytes a b s s' : bytes_inv s -> jne a b s = Ok tt s' -> bytes_inv s'.
Proof.
  intros Hinv H. unfold jne in H.
  apply bind_inv in H as (f & s1 & [-> ->]%get_inv & H).
  destruct (_ =? _); [by apply jump_bytes in H|].
  apply put_inv in H as ->.
  by apply (bytes_inv_frame s); [| | |apply bytes_inv_pc].
Qed.

Lemma logic_bytes (f : Z -> Z -> Z) a b s s' :
  (forall x y, 0 <= x <= 255 -> 0 <= y <= 255 -> 0 <= f x y <= 255) ->
  bytes_inv s ->
  augmented (int_op f) a (Some b) s = Ok tt s' -> bytes_inv s'.
Proof.
  intros Hf ([Hlram Hlreg] & Hreg & Hram & Hpc) H.
  apply augmented_inv in H as (x & y & r & l & Hx & Hy & Hr & Hl & ->).
  destruct (getitem_byte_int _ _ _ Hreg Hx) as (zx & -> & Hzx).
  destruct (getitem_byte_int _ _ _ Hreg Hy) as (zy & -> & Hzy).
  injection Hr as <-.
  assert (byte (VInt (f zx zy))) as Hbyte by (cbn; by apply Hf).
  destruct (setitem_bytes _ _ _ _ Hreg Hbyte Hl) as [Hreg' Hlen].
  split; [split; cbn; congruence|]. done.
Qed.

Lemma cmp_bytes a b s s' : bytes_inv s -> cmp a b s = Ok tt s' -> bytes_inv s'.
Proof.
  intros Hinv H. unfold cmp, alu in H. cbn [String.eqb Ascii.eqb Bool.eqb] in H.
  unfold fl_or, reg_get_opt in H.
  apply bind_inv in H as (f & s1 & [-> ->]%get_inv & H).
  apply bind_inv in H as (u & s1 & ->%put_inv & H).
  apply bind_inv in H as (x & s1 & [Hx ->]%reg_get_inv & H).
  apply bind_inv in H as (y & s1 & [Hy ->]%reg_get_inv & H).
  assert (forall flag s2, (f0 ← get fl; set_fl (Z.lor f0 flag))
            (with_fl (Z.land (fl s) 0x11111000) s) = Ok tt s2 -> bytes_inv s2)
    as Hor.
  { intros flag s2 H2.
    apply bind_inv in H2 as (f2 & s3 & [-> ->]%get_inv & H2).
    apply put_inv in H2 as ->.
    by apply (bytes_inv_frame s); [| | |apply bytes_inv_pc]. }
  destruct (Py.lt x y); [by eapply Hor|].
  apply bind_inv in H as (x' & s1 & [Hx' ->]%reg_get_inv & H).
  apply bind_inv in H as (y' & s1 & [Hy' ->]%reg_get_inv & H).
  destruct (Py.gt x' y'); by eapply Hor.
Qed.

(** Every handler that neither is an unmasked arithmetic instruction nor
    moves the stack pointer out of range keeps memory and registers in
    bytes. *)
Lemma handler_bytes z (h : handler) a b s s' :
  (z, h) ∈ wired ->
  z ∉ unmasked ->
  (z ∈ [PSH; CALL] -> getitem (reg s) SP <> inr (VInt 0)) ->
  (z ∈ [POP; RET] -> getitem (reg s) SP <> inr (VInt 255)) ->
  (exists p, pc s = VInt p /\ 0 <= p /\ p + 2 <= 255) ->
  byte a -> byte b -> bytes_inv s ->
  h a b s = Ok tt s' -> bytes_inv s'.
Proof.
  unfold wired. intros Hin Hz Hpush Hpop Hfetched Ha Hb Hinv H.
  repeat (apply elem_of_cons in Hin as [[= -> ->] | Hin];
    [first
       [ exfalso; apply Hz; apply (bool_decide_unpack _); vm_compute; reflexivity
       | by eapply hlt_bytes | by eapply ldi_bytes | by eapply prn_bytes
       | by eapply jeq_bytes | by eapply jne_bytes | by eapply jump_bytes
       | by eapply cmp_bytes
       | eapply psh_bytes; [apply Hpush; apply (bool_decide_unpack _); vm_compute; reflexivity|done..]
       | eapply call_bytes; [apply Hpush; apply (bool_decide_unpack _); vm_compute; reflexivity|done..]
       | eapply pop_bytes; [apply Hpop; apply (bool_decide_unpack _); vm_compute; reflexivity|done..]
       | eapply ret_bytes; [apply Hpop; apply (bool_decide_unpack _); vm_compute; reflexivity|done..]
       | eapply (logic_bytes Z.land); [apply land_byte|done|exact H]
       | eapply (logic_bytes Z.lor); [apply lor_byte|done|exact H]
       | eapply (logic_bytes Z.lxor); [apply lxor_byte|done|exact H] ]|]).
  by apply elem_of_nil in Hin.
Qed.

Lemma advance_bytes z s s' :
  bytes_inv s -> advance z s = Ok tt s' -> bytes_inv s'.
Proof.
  intros Hinv H. unfold advance in H.
  apply bind_inv in H as (sets & s1 & [-> ->]%get_inv & H).
  destruct (negb (setsPC s)); [|by apply ret_inv in H as [_ ->]].
  apply bind_inv in H as (p & s1 & [-> ->]%get_inv & H).
  apply bind_inv in H as (r & s1 & [Hr ->]%lift_inv & H).
  apply put_inv in H as ->.
  destruct (bytes_inv_pc _ Hinv) as (p & Hp & Hp0).
  rewrite Hp in Hr. injection Hr as <-.
  apply (bytes_inv_frame s); [done..|]. eexists. split; [done|].
  pose proof (proj2 (Z.land_nonneg (Z.shiftr z 6) 3) ltac:(lia)). lia.
Qed.

(** One range-safe iteration keeps memory and registers in bytes. *)
Lemma step_bytes s s' :
  bytes_inv s -> range_safe s = true -> step s = Ok tt s' -> bytes_inv s'.
Proof.
  intros Hinv Hsafe H. unfold step in H.
  apply bind_inv in H as ([[ir a] b] & s1 & Hf & H).
  destruct (fetch_inv _ _ _ _ _ Hf) as (-> & p & Hp & Hir & Ha & Hb).
  unfold range_safe in Hsafe. rewrite Hf in Hsafe. cbn [fst snd] in H.
  pose proof Hinv as ([Hlram Hlreg] & Hreg & Hram & p' & Hp' & Hp0).
  assert (p' = p) as -> by congruence.
  destruct (getitem_byte_int _ _ _ Hram Hir) as (z & -> & Hz).
  pose proof (getitem_byte _ _ _ Hram Ha) as Hbyte_a.
  pose proof (getitem_byte _ _ _ Hram Hb) as Hbyte_b.
  assert (p + 2 <= 255) as Hp2.
  { destruct (decide (p + 2 <= 255)); [done|].
    by rewrite getitem_outside in Hb by lia. }
  apply andb_true_iff in Hsafe as [Hsafe Hpop].
  apply andb_true_iff in Hsafe as [Hmask Hpush].
  apply negb_true_iff, bool_decide_eq_false in Hmask.
  rewrite execute_int in H.
  apply bind_inv in H as (u & s1 & ->%put_inv & H).
  apply bind_inv in H as (u' & s2 & Hh & H).
  assert (bytes_inv (with_setsPC (Z.land (Z.shiftr z 4) 1 =? 1) s)) as Hinv0
    by (by apply (bytes_inv_frame s); [| | |apply bytes_inv_pc]).
  apply (advance_bytes z s2); [|exact H].
  unfold dispatch in Hh.
  destruct (branchtable !! z) as [h|] eqn:Hlook.
  - apply branchtable_wired in Hlook. destruct u'.
    apply (handler_bytes z h a b (with_setsPC (Z.land (Z.shiftr z 4) 1 =? 1) s)
             s2 Hlook Hmask); try done.
    + intros Hin Hsp. cbn in Hsp.
      by rewrite (bool_decide_eq_true_2 _ Hin), (bool_decide_eq_true_2 _ Hsp) in Hpush.
    + intros Hin Hsp. cbn in Hsp.
      by rewrite (bool_decide_eq_true_2 _ Hin), (bool_decide_eq_true_2 _ Hsp) in Hpop.
    + by exists p.
  - apply bind_inv in Hh as (q & s3 & [-> ->]%get_inv & Hh).
    apply put_inv in Hh as ->.
    by apply (bytes_inv_frame s); [| | |apply bytes_inv_pc].
Qed.

Lemma load_from_bytes program : forall address s s',
  Forall (fun z => 0 <= z <= 255) program ->
  bytes_inv s -> load_from address program s = Ok tt s' -> bytes_inv s'.
Proof.
  induction program as [|val rest IH]; intros address s s' Hprog Hinv H.
  - by apply ret_inv in H as [_ ->].
  - cbn [load_from] in H. apply Forall_cons in Hprog as [Hval Hrest].
    apply bind_inv in H as (u & s1 & Hw & H).
    apply ram_write_inv in Hw as (l & Hl & ->).
    apply (IH _ _ _ Hrest) in H; [done|].
    destruct Hinv as ([Hlram Hlreg] & Hreg & Hram & Hpc).
    destruct (setitem_bytes _ _ (VInt val) _ Hram Hval Hl) as [Hram' Hlen].
    split; [split; cbn; congruence|]. done.
Qed.

Lemma init_bytes : bytes_inv init.
Proof.
  split; [by split|]. split; [|split].
  - apply Forall_insert; [apply Forall_replicate|]; cbn; lia.
  - apply Forall_replicate. cbn. lia.
  - by exists 0.
Qed.

Lemma range_safe_bytes s : reachable_by range_safe s -> bytes_inv s.
Proof.
  induction 1 as [program s Hprog Hload | s s' Hreach IH Hrun Hok Hstep].
  - apply (load_from_bytes program 0 init); [done|apply init_bytes|exact Hload].
  - by apply (step_bytes s).
Qed.

(** C7, as stated, fails: the ALU stores its results unmasked.  After
    LDI R0,255 the instruction ADD R0,R0 leaves 510 in R0. *)
Lemma registers_are_bytes_refuted :
  ~ (forall s, reachable s -> Forall byte (reg s)).
Proof.
  intros H.
  assert (reachable after_add) as Hreach.
  { apply reach_step with (s:=steps 1 (boot [LDI; 0; 255; ADD; 0; 0]));
      [|vm_compute; reflexivity..].
    apply reach_step with (s:=boot [LDI; 0; 255; ADD; 0; 0]);
      [|vm_compute; reflexivity..].
    apply reach_boot with (program:=[LDI; 0; 255; ADD; 0; 0]);
      [|vm_compute; reflexivity].
    apply (bool_decide_unpack _). vm_compute. reflexivity. }
  apply H in Hreach. vm_compute in Hreach.
  apply Forall_cons in Hreach as [[_ Hle] _]. by apply Hle.
Qed.

(** C7, amended.  In every machine state reached from a loaded program of
    bytes by iterations that execute neither an unmasked arithmetic
    instruction (ADD, SUB, MUL, DIV, SHL, INC, DEC) nor a push with the
    stack pointer at 0 nor a pop with the stack pointer at 255, each of the
    registers holds an integer in [0,255]. *)
Theorem registers_stay_bytes s :
  reachable_by range_safe s -> Forall byte (reg s).
Proof. by intros (_ & Hreg & _)%range_safe_bytes. Qed.

Lemma registers_stay_bytes_witness : Forall byte (reg after_psh).
Proof.
  apply (registers_stay_bytes after_psh).
  apply reach_step with (s:=steps 1 (boot [LDI; 0; 200; PSH; 0]));
    [|vm_compute; reflexivity..].
  apply reach_step with (s:=boot [LDI; 0; 200; PSH; 0]);
    [|vm_compute; reflexivity..].
  apply reach_boot with (program:=[LDI; 0; 200; PSH; 0]);
    [|vm_compute; reflexivity].
  apply (bool_decide_unpack _). vm_compute. reflexivity.
Defined.

(** ** Whole programs *)

(** The program of the specification's end-to-end scenario prints 72 and
    halts. *)
Example mul_program :
  match run 5 (boot [LDI; 0; 8; LDI; 1; 9; MUL; 0; 1; PRN; 0; HLT]) with
  | Halted s => stdout s = [Printed (VInt 72)]
  | _ => False
  end.
Proof. vm_compute. reflexivity. Qed.

(** DIV is Python's true division: 1 / 3 is the binary64 number nearest to
    one third, and registers then hold a float. *)
Example one_third :
  Py.truediv (VInt 1) (VInt 3)
  = inr (VFloat (S754_finite false 6004799503160661 (-54))).
Proof. vm_compute. reflexivity. Qed.

Example div_program :
  reg (steps 3 (boot [LDI; 0; 8; LDI; 1; 2; DIV; 0; 1])) !! 0%nat
  = Some (VFloat (S754_finite false 4503599627370496 (-50))).
Proof. vm_compute. reflexivity. Qed.

(** An empty memory is a run of unwired zero bytes: the loop walks through
    it printing diagnostics and faults when the operand reads leave memory. *)
Example empty_program :
  match run 300 (boot []) with
  | Crashed IndexError s => pc s = VInt 254 /\ length (stdout s) = 254%nat
  | _ => False
  end.
Proof. vm_compute. done. Qed.

(** ** What each instruction may write *)

(** A property [I] of the machine survives a method as long as it survives
    the field writes the method makes; [may_pc], [may_ram] and so on say
    which field writes [I] is known to survive. *)
Section Footprint.
Variable I : t -> Prop.
Variables may_pc may_ram may_reg may_halted may_setsPC may_fl may_stdout : Prop.
Hypothesis I_pc : may_pc -> forall v s, I s -> I (with_pc v s).
Hypothesis I_ram : may_ram -> forall l s, I s -> I (with_ram l s).
Hypothesis I_reg : may_reg -> forall l s, I s -> I (with_reg l s).
Hypothesis I_halted : may_halted -> forall b s, I s -> I (with_halted b s).
Hypothesis I_setsPC : may_setsPC -> forall b s, I s -> I (with_setsPC b s).
Hypothesis I_fl : may_fl -> forall z s, I s -> I (with_fl z s).
Hypothesis I_stdout : may_stdout -> forall o s, I s -> I (with_stdout o s).

Lemma keeps_put (g : t -> t) : (forall s, I s -> I (g s)) -> preserves I (put g).
Proof. intros Hg s Hs. by apply Hg. Qed.

Lemma keeps_reg_put i v : may_reg -> preserves I (reg_put i v).
Proof.
  intros Hmay s Hs. unfold reg_put. run_monad.
  destruct (setitem (reg s) i v); cbn; [done|]. by apply I_reg.
Qed.

Lemma keeps_ram_write v i : may_ram -> preserves I (ram_write v i).
Proof.
  intros Hmay s Hs. unfold ram_write. run_monad.
  destruct (setitem (ram s) i v); cbn; [done|]. by apply I_ram.
Qed.

Ltac keeps :=
  repeat first
    [ apply preserves_ret | apply preserves_raise | apply preserves_lift
    | apply preserves_get | apply preserves_reg_get | apply preserves_ram_read
    | apply keeps_reg_put; assumption
    | apply keeps_ram_write; assumption
    | apply keeps_put; intros ? ?;
      first [ apply I_pc | apply I_ram | apply I_reg | apply I_halted
            | apply I_setsPC | apply I_fl | apply I_stdout ]; assumption
    | apply preserves_bind; [|intros ?]
    | match goal with
      | |- preserves _ (if ?b then _ else _) => destruct b
      | |- preserves _ (reg_get_opt ?x) => destruct x
      end ].

Ltac member := apply (bool_decide_unpack _); vm_compute; reflexivity.

Lemma keeps_handler z (h : handler) a b :
  (z, h) ∈ wired ->
  (z = HLT -> may_halted) ->
  (z = PRN -> may_stdout) ->
  (z = CMP -> may_fl) ->
  (z ∈ ram_writers -> may_ram) ->
  (z ∈ pc_writers -> may_pc) ->
  (z = JEQ \/ z = JNE -> may_setsPC) ->
  (z ∉ reg_keepers -> may_reg) ->
  preserves I (h a b).
Proof.
  unfold wired. intros Hin Hhalt Hprn Hcmp Hram Hpc Hsets Hreg.
  repeat (apply elem_of_cons in Hin as [[= -> ->] | Hin];
    [ try (assert may_halted by (by apply Hhalt));
      try (assert may_stdout by (by apply Hprn));
      try (assert may_fl by (by apply Hcmp));
      try (assert may_ram by (apply Hram; member));
      try (assert may_pc by (apply Hpc; member));
      try (assert may_setsPC by (apply Hsets; (by left) || (by right)));
      try (assert may_reg by (apply Hreg; intros Hk; apply (bool_decide_pack _) in Hk; vm_compute in Hk; done));
      clear Hhalt Hprn Hcmp Hram Hpc Hsets Hreg;
      unfold set_pc, set_halted, set_setsPC, set_fl, set_reg, set_ram, print, fl_or;
      keeps
    |]).
  by apply elem_of_nil in Hin.
Qed.

Lemma execute_float f a b s : execute (VFloat f) a b s = Raise TypeError s.
Proof. reflexivity. Qed.

Lemma keeps_execute ir a b :
  may_setsPC -> may_pc ->
  (forall z, ir = VInt z -> branchtable !! z = None -> may_stdout) ->
  (forall z, ir = VInt z -> z = HLT -> may_halted) ->
  (forall z, ir = VInt z -> z = PRN -> may_stdout) ->
  (forall z, ir = VInt z -> z = CMP -> may_fl) ->
  (forall z, ir = VInt z -> z ∈ ram_writers -> may_ram) ->
  (forall z, ir = VInt z -> is_Some (branchtable !! z) -> z ∉ reg_keepers -> may_reg) ->
  preserves I (execute ir a b).
Proof.
  intros Hsets Hpc Hnone Hhalt Hprn Hcmp Hram Hreg.
  destruct ir as [z|f]; [|intros s Hs; by rewrite execute_float].
  unfold execute.
  do 5 (apply preserves_bind; [apply preserves_lift|intros ?]).
  apply preserves_bind; [apply keeps_put; intros ? ?; by apply I_setsPC|intros _].
  apply preserves_bind; [|intros _; unfold set_pc; keeps].
  cbn [dispatch]. destruct (branchtable !! z) as [h|] eqn:Hlook.
  - apply (keeps_handler z); eauto.
    by apply branchtable_wired.
  - assert may_stdout by eauto. unfold print. keeps.
Qed.

Lemma keeps_step s ir a b :
  fetch s = Ok (ir, a, b) s ->
  may_setsPC -> may_pc ->
  (forall z, ir = VInt z -> branchtable !! z = None -> may_stdout) ->
  (forall z, ir = VInt z -> z = HLT -> may_halted) ->
  (forall z, ir = VInt z -> z = PRN -> may_stdout) ->
  (forall z, ir = VInt z -> z = CMP -> may_fl) ->
  (forall z, ir = VInt z -> z ∈ ram_writers -> may_ram) ->
  (forall z, ir = VInt z -> is_Some (branchtable !! z) -> z ∉ reg_keepers -> may_reg) ->
  I s -> I (state_of (step s)).
Proof.
  intros Hf Hsets Hpc Hnone Hhalt Hprn Hcmp Hram Hreg Hs.
  rewrite (step_fetched _ _ _ _ Hf). by apply keeps_execute.
Qed.
End Footprint.

(** X1. Memory is written by the stack only: one iteration on any
    instruction byte other than PSH and CALL leaves every memory cell as
    it was, whether the handler returns or raises.  (LD and ST are not
    wired, so a program has no other way to store into memory.) *)
Theorem memory_written_only_by_stack s ir a b :
  fetch s = Ok (ir, a, b) s ->
  ir <> VInt PSH -> ir <> VInt CALL ->
  ram (state_of (step s)) = ram s.
Proof.
  intros Hf Hpsh Hcall.
  apply (keeps_step (fun s' => ram s' = ram s) True False True True True True True)
    with (ir:=ir) (a:=a) (b:=b); try done.
  intros z -> Hin. unfold ram_writers in Hin.
  apply elem_of_cons in Hin as [-> | Hin]; [done|].
  apply elem_of_cons in Hin as [-> | Hin]; [done|].
  by apply elem_of_nil in Hin.
Qed.

Lemma memory_written_only_by_stack_witness :
  ram (state_of (step before_mul)) = ram before_mul.
Proof.
  apply (memory_written_only_by_stack before_mul (VInt MUL) (VInt 0) (VInt 1));
    [vm_compute; reflexivity|discriminate|discriminate].
Defined.

(** X2. Only HLT stops the machine: one iteration on any instruction byte
    other than HLT leaves [halted] as it was. *)
Theorem halted_set_only_by_hlt s ir a b :
  fetch s = Ok (ir, a, b) s ->
  ir <> VInt HLT ->
  halted (state_of (step s)) = halted s.
Proof.
  intros Hf Hhlt.
  apply (keeps_step (fun s' => halted s' = halted s) True True True False True True True)
    with (ir:=ir) (a:=a) (b:=b); try done.
  by intros z -> ->.
Qed.

Lemma halted_set_only_by_hlt_witness :
  halted (state_of (step before_mul)) = halted before_mul.
Proof.
  apply (halted_set_only_by_hlt before_mul (VInt MUL) (VInt 0) (VInt 1));
    [vm_compute; reflexivity|discriminate].
Defined.

(** X3. Among the wired instructions only PRN prints: one iteration on a
    byte of the dispatch table other than PRN leaves the output as it was. *)
Theorem output_written_only_by_prn s z a b :
  fetch s = Ok (VInt z, a, b) s ->
  is_Some (branchtable !! z) ->
  z <> PRN ->
  stdout (state_of (step s)) = stdout s.
Proof.
  intros Hf [h Hh] Hprn.
  apply (keeps_step (fun s' => stdout s' = stdout s) True True True True True True False)
    with (ir:=VInt z) (a:=a) (b:=b); try done.
  - intros z' [= <-] Hnone. congruence.
  - intros z' [= <-] ->. done.
Qed.

Lemma output_written_only_by_prn_witness :
  stdout (state_of (step before_mul)) = stdout before_mul.
Proof.
  apply (output_written_only_by_prn before_mul MUL (VInt 0) (VInt 1));
    [vm_compute; reflexivity|by exists mul|discriminate].
Defined.

(** X4. HLT, PRN, CMP, JMP, JEQ, JNE and the bytes without a handler
    write no register: one iteration on any of them leaves the register
    file as it was. *)
Theorem registers_kept s z a b :
  fetch s = Ok (VInt z, a, b) s ->
  z ∈ reg_keepers \/ branchtable !! z = None ->
  reg (state_of (step s)) = reg s.
Proof.
  intros Hf Hkeep.
  apply (keeps_step (fun s' => reg s' = reg s) True True False True True True True)
    with (ir:=VInt z) (a:=a) (b:=b); try done.
  intros z' [= <-] [h Hh] Hnot. destruct Hkeep as [Hin|Hnone]; [done|congruence].
Qed.

Lemma registers_kept_witness :
  reg (state_of (step before_jeq)) = reg before_jeq.
Proof.
  apply (registers_kept before_jeq JEQ (VInt 1) (VInt 0));
    [vm_compute; reflexivity|left; apply (bool_decide_unpack _); vm_compute; reflexivity].
Defined.


Lemma wired_bit4_clear z (h : handler) :
  (z, h) ∈ wired -> Z.testbit z 4 = false ->
  (z ∉ pc_writers) /\ z <> JEQ /\ z <> JNE.
Proof.
  unfold wired. intros Hin Hbit.
  repeat (apply elem_of_cons in Hin as [[= -> ->] | Hin];
    [first [ discriminate Hbit
           | split; [intros Hk; apply (bool_decide_pack _) in Hk; vm_compute in Hk; done
                    |split; discriminate] ]|]).
  by apply elem_of_nil in Hin.
Qed.

(** X5. Straight-line execution: when an iteration on a byte whose bit 4
    is clear returns, the program counter has moved past the opcode and as
    many operand bytes as bits 6-7 of the byte count, whatever the handler
    did.  No handler of such an opcode touches the program counter or
    [setsPC]. *)
Theorem straight_line_advance s z a b p s' :
  pc s = VInt p ->
  fetch s = Ok (VInt z, a, b) s ->
  Z.testbit z 4 = false ->
  step s = Ok tt s' ->
  pc s' = VInt (p + 1 + Z.land (Z.shiftr z 6) 3).
Proof.
  intros Hp Hf Hbit Hstep.
  destruct (branchtable !! z) as [h|] eqn:Hlook.
  - rewrite (step_wired _ _ _ _ _ Hf Hlook), setsPC_bit, Hbit in Hstep.
    apply bind_inv in Hstep as (u & s0 & ->%put_inv & Hstep).
    apply bind_inv in Hstep as (u' & s1 & Hh & Hstep).
    apply branchtable_wired in Hlook.
    destruct (wired_bit4_clear _ _ Hlook Hbit) as (Hpcw & Hjeq & Hjne).
    assert (pc s1 = VInt p /\ setsPC s1 = false) as [Hp1 Hsets1].
    { change s1 with (state_of (Ok u' s1)). rewrite <- Hh.
      apply (keeps_handler (fun x => pc x = VInt p /\ setsPC x = false)
               False True True True False True True) with (z:=z); try done.
      intros [-> | ->]; done. }
    rewrite (advance_ok _ _ _ Hp1 Hsets1) in Hstep.
    injection Hstep as <-. cbn. f_equal. lia.
  - rewrite (step_unwired _ _ _ _ _ Hp Hf Hlook), Hbit in Hstep.
    injection Hstep as <-. cbn. f_equal. lia.
Qed.

Lemma straight_line_advance_witness :
  pc (steps 1 before_mul) = VInt (6 + 1 + Z.land (Z.shiftr MUL 6) 3).
Proof.
  apply (straight_line_advance before_mul MUL (VInt 0) (VInt 1) 6 (steps 1 before_mul));
    vm_compute; reflexivity.
Defined.

(** ** Which exceptions the loop can raise *)

Section Raises.
Variable E : exn -> Prop.

Lemma rw_bind {A B} (m : M A) (k : A -> M B) :
  raises_within E m -> (forall a, raises_within E (k a)) ->
  raises_within E (m ≫= k).
Proof.
  intros Hm Hk s e s'. rewrite bind_unfold.
  destruct (m s) as [a s1|e1 s1] eqn:Hms.
  - apply Hk.
  - intros [= <- <-]. by eapply Hm.
Qed.

Lemma rw_ret {A} (a : A) : raises_within E (mret a : M A).
Proof. by intros s e s'. Qed.

Lemma rw_get {A} (f : t -> A) : raises_within E (get f).
Proof. by intros s e s'. Qed.

Lemma rw_put g : raises_within E (put g).
Proof. by intros s e s'. Qed.

Lemma rw_raise {A} e : E e -> raises_within E (@raise A e).
Proof. by intros He s e' s' [= <- <-]. Qed.

Lemma rw_lift {A} (r : res A) :
  (forall e, r = inl e -> E e) -> raises_within E (lift r).
Proof.
  intros Hr. destruct r as [e|a]; [apply rw_raise; by apply Hr|apply rw_ret].
Qed.
End Raises.

Lemma to_float_error v e : to_float v = inl e -> python_error e.
Proof.
  destruct v as [z|f]; [|done]. unfold to_float.
  destruct (binary_normalize _ _ _ _ _); by intros [= <-].
Qed.

Lemma float_op_error op x y e : float_op op x y = inl e -> python_error e.
Proof.
  unfold float_op.
  destruct (to_float x) as [ex|fx] eqn:Hx; [intros [= <-]; by eapply to_float_error|].
  destruct (to_float y) as [ey|fy] eqn:Hy; [intros [= <-]; by eapply to_float_error|].
  done.
Qed.

Lemma add_error x y e : Py.add x y = inl e -> python_error e.
Proof. destruct x, y; try done; apply float_op_error. Qed.

Lemma sub_error x y e : Py.sub x y = inl e -> python_error e.
Proof. destruct x, y; try done; apply float_op_error. Qed.

Lemma mul_error x y e : Py.mul x y = inl e -> python_error e.
Proof. destruct x, y; try done; apply float_op_error. Qed.

Lemma truediv_error x y e : Py.truediv x y = inl e -> python_error e.
Proof.
  assert (forall x y, (match to_float x with
          | inl e => inl e
          | inr fx => match to_float y with
                      | inl e => inl e
                      | inr fy => if is_zero fy then inl ZeroDivisionError
                                  else inr (VFloat (SFdiv prec emax fx fy))
                      end
          end = inl e) -> python_error e) as Hmixed.
  { intros x' y'.
    destruct (to_float x') as [ex|fx] eqn:Hx; [intros [= <-]; by eapply to_float_error|].
    destruct (to_float y') as [ey|fy] eqn:Hy; [intros [= <-]; by eapply to_float_error|].
    destruct (is_zero fy); by intros [= <-]. }
  destruct x as [a|f], y as [b|g]; try apply Hmixed.
  unfold truediv. destruct (b =? 0); [by intros [= <-]|].
  destruct (SFdiv _ _ _ _); by intros [= <-].
Qed.

Lemma int_op_error f x y e : int_op f x y = inl e -> python_error e.
Proof. destruct x, y; by intros [= <-]. Qed.

Lemma lshift_error x y e : Py.lshift x y = inl e -> python_error e.
Proof.
  destruct x as [a|?], y as [b|?]; try by intros [= <-].
  unfold lshift. destruct (b <? 0); [by intros [= <-]|].
  destruct (a =? 0); [done|].
  destruct (max_digits <? _); by intros [= <-].
Qed.

Lemma rshift_error x y e : Py.rshift x y = inl e -> python_error e.
Proof.
  destruct x as [a|?], y as [b|?]; try by intros [= <-].
  cbn. destruct (b <? 0); by intros [= <-].
Qed.

Lemma index_error len i e : index len i = inl e -> python_error e.
Proof.
  destruct i as [z|f]; [|by intros [= <-]]. unfold index.
  repeat (destruct (_ && _)); by intros [= <-].
Qed.

Lemma getitem_error l i e : getitem l i = inl e -> python_error e.
Proof.
  unfold getitem. destruct (index _ i) as [e'|n] eqn:Hn;
    [intros [= <-]; by eapply index_error|].
  destruct (l !! n); by intros [= <-].
Qed.

Lemma setitem_error l i v e : setitem l i v = inl e -> python_error e.
Proof.
  unfold setitem. destruct (index _ i) as [e'|n] eqn:Hn;
    [intros [= <-]; by eapply index_error|done].
Qed.

Ltac raises :=
  repeat first
    [ apply rw_ret | apply rw_get | apply rw_put
    | apply rw_raise; done
    | apply rw_lift; intros ?;
      first [ apply getitem_error | apply setitem_error | apply add_error
            | apply sub_error | apply mul_error | apply truediv_error
            | apply int_op_error | apply lshift_error | apply rshift_error ]
    | apply rw_bind; [|intros ?]
    | match goal with
      | |- raises_within _ (if ?b then _ else _) => destruct b
      | |- raises_within _ (reg_get_opt ?x) => destruct x
      end ].

Lemma handler_errors z (h : handler) a b :
  (z, h) ∈ wired -> raises_within python_error (h a b).
Proof.
  unfold wired. intros Hin.
  repeat (apply elem_of_cons in Hin as [[= -> ->] | Hin];
    [unfold set_pc, set_halted, set_setsPC, set_fl, set_reg, set_ram, print, fl_or;
     raises|]).
  by apply elem_of_nil in Hin.
Qed.

Lemma execute_errors ir a b : raises_within python_error (execute ir a b).
Proof.
  unfold execute.
  do 5 (apply rw_bind; [raises|intros ?]).
  apply rw_bind; [apply rw_put|intros _].
  apply rw_bind; [|intros _; unfold set_pc; raises].
  destruct ir as [z|f]; cbn [dispatch]; [|unfold print; raises].
  destruct (branchtable !! z) as [h|] eqn:Hlook; [|unfold print; raises].
  apply (handler_errors z). by apply branchtable_wired.
Qed.

(** X6. The loop never reaches the fatal branch of [alu]: whatever one
    iteration raises is an exception of the interpreter (an index, type,
    zero-division, overflow or value error), never the "Unsupported ALU
    operation" exception.  Every handler passes [alu] a name it knows. *)
Theorem step_raises_python_errors s e s' :
  step s = Raise e s' -> e <> UnsupportedALU.
Proof.
  revert s e s'. change (raises_within python_error step).
  unfold step. apply rw_bind; [unfold fetch; raises|].
  intros [[ir a] b]. apply execute_errors.
Qed.

Lemma step_raises_python_errors_witness : IndexError <> UnsupportedALU.
Proof.
  apply (step_raises_python_errors before_fault IndexError before_fault).
  vm_compute. reflexivity.
Defined.

(** X7. [alu] raises its own exception exactly for the operation names it
    does not list; for such a name it raises at once and leaves the machine
    as it was. *)
Theorem alu_unsupported_iff op a b s :
  (exists s', alu op a b s = Raise UnsupportedALU s') <-> op ∉ alu_names.
Proof.
  split.
  - intros [s' H] Hin.
    assert (raises_within python_error (alu op a b)) as Hrw.
    { unfold alu_names in Hin.
      repeat (apply elem_of_cons in Hin as [-> | Hin];
        [unfold alu; cbn [String.eqb Ascii.eqb Bool.eqb];
         unfold set_fl, fl_or; raises|]).
      by apply elem_of_nil in Hin. }
    by apply (Hrw s UnsupportedALU s' H).
  - intros Hnot. exists s. unfold alu.
    repeat match goal with
      | |- (if String.eqb op ?x then _ else _) s = _ =>
          destruct (String.eqb_spec op x) as [-> | _];
          [exfalso; apply Hnot; apply (bool_decide_unpack _); vm_compute; reflexivity|]
      end.
    reflexivity.
Qed.

(** ** More instructions *)

Lemma ldi_ok s a b n :
  index (length (reg s)) a = inr n ->
  ldi a b s = Ok tt (with_reg (<[n:=b]> (reg s)) s).
Proof. intros Hn. unfold_handlers. run_monad. by rewrite (setitem_spec _ _ _ _ Hn). Qed.

Lemma prn_ok s a b v :
  getitem (reg s) a = inr v ->
  prn a b s = Ok tt (with_stdout (stdout s ++ [Printed v]) s).
Proof. intros Hv. unfold_handlers. run_monad. by rewrite Hv. Qed.

(** X8. LDI r,v stores the operand byte v in register r and moves on by
    3; a PRN r executed next prints exactly v, moves on by 2 and changes
    neither registers nor memory. *)
Theorem ldi_then_prn s r v p n :
  pc s = VInt p ->
  fetch s = Ok (VInt LDI, r, v) s ->
  index (length (reg s)) r = inr n ->
  exists s1, step s = Ok tt s1
    /\ pc s1 = VInt (p + 3)
    /\ reg s1 = <[n:=v]> (reg s)
    /\ forall b, fetch s1 = Ok (VInt PRN, r, b) s1 ->
         exists s2, step s1 = Ok tt s2
           /\ stdout s2 = stdout s ++ [Printed v]
           /\ pc s2 = VInt (p + 5)
           /\ reg s2 = reg s1 /\ ram s2 = ram s.
Proof.
  intros Hp Hf Hn. eexists. split.
  { eapply step_wired_ok; [exact Hf|reflexivity| |].
    - by apply ldi_ok.
    - by apply advance_ok with (p:=p). }
  fields. split; [done|]. split; [done|].
  intros b Hf2. eexists. split.
  { eapply step_wired_ok; [exact Hf2|reflexivity| |].
    - apply prn_ok with (v:=v). fields. by apply getitem_insert_eq.
    - by apply advance_ok with (p:=p + 3). }
  fields. replace (p + 5) with (p + 3 + 2) by lia. done.
Qed.

Lemma ldi_then_prn_witness :
  exists s1, step before_ldi_prn = Ok tt s1
    /\ pc s1 = VInt (0 + 3)
    /\ reg s1 = <[0%nat:=VInt 8]> (reg before_ldi_prn)
    /\ forall b, fetch s1 = Ok (VInt PRN, VInt 0, b) s1 ->
         exists s2, step s1 = Ok tt s2
           /\ stdout s2 = stdout before_ldi_prn ++ [Printed (VInt 8)]
           /\ pc s2 = VInt (0 + 5)
           /\ reg s2 = reg s1 /\ ram s2 = ram before_ldi_prn.
Proof.
  apply (ldi_then_prn before_ldi_prn (VInt 0) (VInt 8) 0 0%nat);
    vm_compute; reflexivity.
Defined.

(** X9. HLT stops the loop: started in front of a HLT, [run] returns after
    that one instruction however many iterations it is allowed, with
    [halted] set, the program counter one byte further and nothing else
    changed. *)
Theorem hlt_stops s a b p n :
  pc s = VInt p ->
  halted s = false ->
  fetch s = Ok (VInt HLT, a, b) s ->
  run (S n) s
  = Halted (with_pc (VInt (p + 1)) (with_halted true (with_setsPC false s))).
Proof.
  intros Hp Hrun Hf. cbn [run]. rewrite Hrun.
  erewrite step_wired_ok; [|exact Hf|reflexivity|reflexivity|by apply advance_ok with (p:=p)].
  by destruct n.
Qed.

Lemma hlt_stops_witness :
  run 4 before_hlt
  = Halted (with_pc (VInt (0 + 1)) (with_halted true (with_setsPC false before_hlt))).
Proof.
  apply (hlt_stops before_hlt (VInt 0) (VInt 0) 0 3); vm_compute; reflexivity.
Defined.

Lemma step_jmp s a b v :
  fetch s = Ok (VInt JMP, a, b) s ->
  getitem (reg s) a = inr v ->
  step s = Ok tt (with_pc v (with_setsPC true s)).
Proof.
  intros Hf Hv.
  eapply step_wired_ok; [exact Hf|reflexivity| |by apply advance_skip].
  unfold_handlers. run_monad. by rewrite Hv.
Qed.

(** X10. JMP is unconditional: one iteration on a JMP sets the program
    counter to whatever the named register holds, without any check on the
    value, and changes nothing else but [setsPC]. *)
Theorem jmp_sets_pc s a b v :
  fetch s = Ok (VInt JMP, a, b) s ->
  getitem (reg s) a = inr v ->
  step s = Ok tt (with_pc v (with_setsPC true s))
  /\ ram (with_pc v (with_setsPC true s)) = ram s
  /\ reg (with_pc v (with_setsPC true s)) = reg s
  /\ fl (with_pc v (with_setsPC true s)) = fl s.
Proof.
  intros Hf Hv. split; [|done].
  eapply step_wired_ok; [exact Hf|reflexivity| |by apply advance_skip].
  unfold_handlers. run_monad. by rewrite Hv.
Qed.

Lemma jmp_sets_pc_witness :
  step before_jmp = Ok tt (with_pc (VInt 254) (with_setsPC true before_jmp))
  /\ ram (with_pc (VInt 254) (with_setsPC true before_jmp)) = ram before_jmp
  /\ reg (with_pc (VInt 254) (with_setsPC true before_jmp)) = reg before_jmp
  /\ fl (with_pc (VInt 254) (with_setsPC true before_jmp)) = fl before_jmp.
Proof.
  apply (jmp_sets_pc before_jmp (VInt 0) (VInt 0) (VInt 254));
    vm_compute; reflexivity.
Defined.

(** X11. A jump through a register that holds a float (the result of a
    DIV, even an exact one) is taken, and the next iteration raises
    [TypeError] when it subscripts memory with the float. *)
Theorem jump_through_float_crashes s a b f n :
  halted s = false ->
  fetch s = Ok (VInt JMP, a, b) s ->
  getitem (reg s) a = inr (VFloat f) ->
  run (S (S n)) s = Crashed TypeError (with_pc (VFloat f) (with_setsPC true s)).
Proof.
  intros Hrun Hf Hv. cbn [run]. rewrite Hrun, (step_jmp _ _ _ _ Hf Hv).
  fields. by rewrite Hrun.
Qed.

Lemma jump_through_float_crashes_witness :
  run 2 before_jmp_float
  = Crashed TypeError
      (with_pc (VFloat (S754_finite false 4503599627370496 (-50)))
         (with_setsPC true before_jmp_float)).
Proof.
  apply (jump_through_float_crashes before_jmp_float (VInt 0) (VInt 0)
           (S754_finite false 4503599627370496 (-50)) 0);
    vm_compute; reflexivity.
Defined.

Lemma augmented_const_ok op s a x c r n :
  getitem (reg s) a = inr x ->
  op x (VInt c) = inr r ->
  index (length (reg s)) a = inr n ->
  augmented_const op a c s = Ok tt (with_reg (<[n:=r]> (reg s)) s).
Proof.
  intros Ha Hop Hn. unfold_handlers. run_monad.
  rewrite Ha. cbn. rewrite Hop. cbn. by rewrite (setitem_spec _ _ _ _ Hn).
Qed.

(** X12. INC and DEC add and subtract 1 without masking (255 becomes 256,
    0 becomes -1), ignore the second operand byte, move on by 2 and change
    nothing else. *)
Theorem inc_dec_unmasked s opcode a b x p n :
  pc s = VInt p ->
  fetch s = Ok (VInt opcode, a, b) s ->
  opcode = INC \/ opcode = DEC ->
  getitem (reg s) a = inr (VInt x) ->
  index (length (reg s)) a = inr n ->
  exists s', step s = Ok tt s'
    /\ reg s' = <[n := VInt (if opcode =? INC then x + 1 else x - 1)]> (reg s)
    /\ pc s' = VInt (p + 2)
    /\ ram s' = ram s /\ fl s' = fl s /\ halted s' = halted s
    /\ stdout s' = stdout s.
Proof.
  intros Hp Hf [-> | ->] Hx Hn; eexists; (split;
    [eapply step_wired_ok; [exact Hf|reflexivity| |]|]).
  - by apply (augmented_const_ok Py.add) with (x:=VInt x).
  - by apply advance_ok with (p:=p).
  - done.
  - by apply (augmented_const_ok Py.sub) with (x:=VInt x).
  - by apply advance_ok with (p:=p).
  - done.
Qed.

Lemma inc_dec_unmasked_witness :
  exists s', step before_inc = Ok tt s'
    /\ reg s' = <[0%nat := VInt (if INC =? INC then 255 + 1 else 255 - 1)]> (reg before_inc)
    /\ pc s' = VInt (3 + 2)
    /\ ram s' = ram before_inc /\ fl s' = fl before_inc
    /\ halted s' = halted before_inc
    /\ stdout s' = stdout before_inc.
Proof.
  apply (inc_dec_unmasked before_inc INC (VInt 0) (VInt 0) 255 3 0%nat);
    [vm_compute; reflexivity|vm_compute; reflexivity|by left
    |vm_compute; reflexivity|vm_compute; reflexivity].
Defined.

(** X13. DIV by a register holding 0 raises [ZeroDivisionError]: [run]
    ends there, and the machine is as it was before the instruction apart
    from [setsPC]. *)
Theorem div_by_zero_crashes s a b x n :
  halted s = false ->
  fetch s = Ok (VInt DIV, a, b) s ->
  getitem (reg s) a = inr (VInt x) ->
  getitem (reg s) b = inr (VInt 0) ->
  run (S n) s = Crashed ZeroDivisionError (with_setsPC false s).
Proof.
  intros Hrun Hf Ha Hb. cbn [run]. rewrite Hrun.
  rewrite (step_wired _ _ _ _ div Hf) by reflexivity.
  unfold div, alu. cbn [String.eqb Ascii.eqb Bool.eqb].
  unfold_handlers. run_monad. rewrite Ha. cbn. by rewrite Hb.
Qed.

Lemma div_by_zero_crashes_witness :
  run 1 before_div_zero = Crashed ZeroDivisionError (with_setsPC false before_div_zero).
Proof.
  apply (div_by_zero_crashes before_div_zero (VInt 0) (VInt 1) 8 0);
    vm_compute; reflexivity.
Defined.

(** X14. DIV is true division: whenever the division of two integer
    registers succeeds, what it stores in the first register is a float,
    also when the quotient is a whole number. *)
Theorem div_leaves_float s a b x y r p n :
  pc s = VInt p ->
  fetch s = Ok (VInt DIV, a, b) s ->
  getitem (reg s) a = inr (VInt x) ->
  getitem (reg s) b = inr (VInt y) ->
  index (length (reg s)) a = inr n ->
  Py.truediv (VInt x) (VInt y) = inr r ->
  exists f, r = VFloat f
    /\ step s = Ok tt (with_pc (VInt (p + 3))
                         (with_reg (<[n:=VFloat f]> (reg s)) (with_setsPC false s))).
Proof.
  intros Hp Hf Ha Hb Hn Hr.
  assert (exists f, r = VFloat f) as [f ->].
  { revert Hr. unfold truediv. destruct (y =? 0); [done|].
    destruct (SFdiv _ _ _ _); intros [= <-]; eauto. }
  exists f. split; [done|].
  eapply step_wired_ok; [exact Hf|reflexivity| |].
  - by apply (augmented_ok Py.truediv) with (x:=VInt x) (y:=VInt y).
  - by apply advance_ok with (p:=p).
Qed.

Lemma div_leaves_float_witness :
  exists f, VFloat (S754_finite false 4503599627370496 (-50)) = VFloat f
    /\ step before_div = Ok tt (with_pc (VInt (6 + 3))
                         (with_reg (<[0%nat:=VFloat f]> (reg before_div))
                            (with_setsPC false before_div))).
Proof.
  apply (div_leaves_float before_div (VInt 0) (VInt 1) 8 2
           (VFloat (S754_finite false 4503599627370496 (-50))) 6 0%nat);
    vm_compute; reflexivity.
Defined.

(** X15. AND, OR, XOR and SHL raise [TypeError] as soon as one of the two
    registers holds a float, and leave registers, memory and flags as they
    were. *)
Theorem bitwise_on_float_raises s opcode a b x y :
  fetch s = Ok (VInt opcode, a, b) s ->
  opcode ∈ [AND; OR; XOR; SHL] ->
  getitem (reg s) a = inr x ->
  getitem (reg s) b = inr y ->
  (exists f, x = VFloat f) \/ (exists f, y = VFloat f) ->
  step s = Raise TypeError (with_setsPC false s).
Proof.
  intros Hf Hin Ha Hb Hfloat.
  assert (forall op : value -> value -> res value,
            op x y = inl TypeError ->
            augmented op a (Some b) (with_setsPC false s)
            = Raise TypeError (with_setsPC false s)) as Haug.
  { intros op Hop. unfold_handlers. run_monad. rewrite Ha. cbn. rewrite Hb. cbn.
    by rewrite Hop. }
  assert (forall g, int_op g x y = inl TypeError) as Hint.
  { intros g. destruct Hfloat as [[f ->] | [f ->]]; [done|by destruct x]. }
  assert (Py.lshift x y = inl TypeError) as Hshl.
  { destruct Hfloat as [[f ->] | [f ->]]; [done|by destruct x]. }
  assert (forall (h : handler) z op,
            fetch s = Ok (VInt z, a, b) s ->
            branchtable !! z = Some h ->
            (Z.land (Z.shiftr z 4) 1 =? 1) = false ->
            (forall s0, h a b s0 = augmented op a (Some b) s0) ->
            op x y = inl TypeError ->
            step s = Raise TypeError (with_setsPC false s)) as Hgo.
  { intros h z op Hfz Hh Hbit Hhop Hop.
    rewrite (step_wired _ _ _ _ h Hfz Hh), Hbit, bind_unfold.
    unfold set_setsPC at 1, put at 1. by rewrite bind_unfold, Hhop, (Haug _ Hop). }
  apply elem_of_cons in Hin as [-> | Hin];
    [apply (Hgo andd AND Py.and_); [done|reflexivity|reflexivity|reflexivity|apply Hint]|].
  apply elem_of_cons in Hin as [-> | Hin];
    [apply (Hgo orr OR Py.or_); [done|reflexivity|reflexivity|reflexivity|apply Hint]|].
  apply elem_of_cons in Hin as [-> | Hin];
    [apply (Hgo xor XOR Py.xor_); [done|reflexivity|reflexivity|reflexivity|apply Hint]|].
  apply elem_of_cons in Hin as [-> | Hin];
    [apply (Hgo shl SHL Py.lshift); [done|reflexivity|reflexivity|reflexivity|apply Hshl]|].
  by apply elem_of_nil in Hin.
Qed.

Lemma bitwise_on_float_raises_witness :
  step before_and_float = Raise TypeError (with_setsPC false before_and_float).
Proof.
  apply (bitwise_on_float_raises before_and_float AND (VInt 0) (VInt 1)
           (VFloat (S754_finite false 4503599627370496 (-50))) (VInt 2));
    [vm_compute; reflexivity|apply (bool_decide_unpack _); vm_compute; reflexivity
    |vm_compute; reflexivity|vm_compute; reflexivity|left; by eexists].
Defined.

(** A count of 2^66 asks for more digits than the interpreter builds. *)
Lemma lshift_huge x y :
  x <> 0 -> 2 ^ 66 <= y -> Py.lshift (VInt x) (VInt y) = inl OverflowError.
Proof.
  intros Hx Hy. unfold lshift.
  assert (0 < 2 ^ 66) as Hpos by reflexivity.
  destruct (Z.ltb_spec y 0); [lia|].
  destruct (Z.eqb_spec x 0); [done|].
  assert (2 ^ 66 / 30 <= y / digit_bits) as Hdy by (apply Z.div_le_mono; [done|lia]).
  assert (0 <= Z.log2 (Z.abs x) / digit_bits) as Hdx
    by (apply Z.div_pos; [apply Z.log2_nonneg|done]).
  assert (0 <= (if y mod digit_bits =? 0 then 0 else 1)) as Hrem
    by (destruct (y mod digit_bits =? 0); lia).
  change (2 ^ 66 / 30) with 2459565876494606882 in Hdy.
  destruct (Z.ltb_spec max_digits
              (digits x + y / digit_bits + (if y mod digit_bits =? 0 then 0 else 1)))
    as [_ | Hle]; [done|].
  unfold digits in Hle. change max_digits with 2305843009213693945 in Hle. lia.
Qed.

(** X24. SHL of a non-zero integer by a count of 2^66 or more raises
    [OverflowError] and leaves registers, memory and flags as they were.
    Registers are not masked, so SHL itself produces such counts: after
    LDI R0,1; LDI R1,255; SHL R0,R1 register R0 holds 2^255. *)
Theorem shl_huge_count_raises s a b x y :
  fetch s = Ok (VInt SHL, a, b) s ->
  getitem (reg s) a = inr (VInt x) ->
  getitem (reg s) b = inr (VInt y) ->
  x <> 0 ->
  2 ^ 66 <= y ->
  step s = Raise OverflowError (with_setsPC false s).
Proof.
  intros Hf Ha Hb Hx Hy.
  assert (forall op : value -> value -> res value,
            op (VInt x) (VInt y) = inl OverflowError ->
            augmented op a (Some b) (with_setsPC false s)
            = Raise OverflowError (with_setsPC false s)) as Haug.
  { intros op Hop. unfold_handlers. run_monad. rewrite Ha. cbn. rewrite Hb. cbn.
    by rewrite Hop. }
  rewrite (step_wired _ _ _ _ shl Hf) by reflexivity.
  change (Z.land (Z.shiftr SHL 4) 1 =? 1) with false.
  rewrite bind_unfold. unfold set_setsPC at 1, put at 1.
  rewrite bind_unfold. change (shl a b) with (augmented Py.lshift a (Some b)).
  by rewrite (Haug _ (lshift_huge x y Hx Hy)).
Qed.

Lemma shl_huge_count_raises_witness :
  step before_shl_huge = Raise OverflowError (with_setsPC false before_shl_huge).
Proof.
  apply (shl_huge_count_raises before_shl_huge (VInt 1) (VInt 0) 255 (2 ^ 255));
    [vm_compute; reflexivity|vm_compute; reflexivity|vm_compute; reflexivity
    |lia|by vm_compute].
Defined.

(** ** Memory and the loader *)

Lemma index_of_nat len k :
  (k < len)%nat -> index len (VInt (Z.of_nat k)) = inr k.
Proof. intros Hk. rewrite index_nonneg by lia. by rewrite Nat2Z.id. Qed.

Lemma ram_write_ok s i v n :
  index (length (ram s)) i = inr n ->
  ram_write v i s = Ok tt (with_ram (<[n:=v]> (ram s)) s).
Proof. intros H. unfold ram_write. run_monad. by rewrite (setitem_spec _ _ _ _ H). Qed.

Lemma load_from_fits program : forall k s,
  (k + length program <= length (ram s))%nat ->
  exists s', load_from (Z.of_nat k) program s = Ok tt s'
    /\ ram s' = take k (ram s) ++ (VInt <$> program)
                  ++ drop (k + length program) (ram s)
    /\ only_ram_differs s s'.
Proof.
  induction program as [|val rest IH]; intros k s Hfit.
  - exists s. split; [done|]. split; [|done]. cbn.
    by rewrite Nat.add_0_r, take_drop.
  - cbn [length] in Hfit. cbn [load_from]. rewrite bind_unfold.
    rewrite (ram_write_ok s (VInt (Z.of_nat k)) (VInt val) k)
      by (apply index_of_nat; lia).
    replace (Z.of_nat k + 1) with (Z.of_nat (S k)) by lia.
    destruct (IH (S k) (with_ram (<[k:=VInt val]> (ram s)) s))
      as (s' & Hload & Hram & Hrest).
    { cbn. rewrite length_insert. lia. }
    exists s'. split; [done|]. split; [|done].
    rewrite Hram. cbn [ram with_ram length].
    rewrite (take_S_r _ _ (VInt val)) by (apply list_lookup_insert_eq; lia).
    rewrite take_insert_ge by lia. rewrite drop_insert_lt by lia.
    rewrite <- app_assoc. cbn.
    by replace (k + S (length rest))%nat with (S (k + length rest)) by lia.
Qed.

(** X16. [load] copies the parsed values into memory from address 0 in
    file order and touches nothing else: the cells past the program keep
    what they held before (the zero fill after the constructor, the old
    content on a machine loaded twice). *)
Theorem load_writes_program program s :
  (length program <= length (ram s))%nat ->
  exists s', load program s = Ok tt s'
    /\ ram s' = (VInt <$> program) ++ drop (length program) (ram s)
    /\ only_ram_differs s s'.
Proof. intros Hfit. by apply (load_from_fits program 0 s). Qed.

Lemma load_writes_program_witness :
  exists s', load [LDI; 0; 8] init = Ok tt s'
    /\ ram s' = (VInt <$> [LDI; 0; 8]) ++ drop (length [LDI; 0; 8]) (ram init)
    /\ only_ram_differs init s'.
Proof. apply (load_writes_program [LDI; 0; 8] init). vm_compute. lia. Defined.

Lemma load_from_overflows program : forall k s,
  (k <= length (ram s) < k + length program)%nat ->
  exists s', load_from (Z.of_nat k) program s = Raise IndexError s'
    /\ ram s' = take k (ram s) ++ (VInt <$> take (length (ram s) - k) program)
    /\ only_ram_differs s s'.
Proof.
  induction program as [|val rest IH]; intros k s Hover.
  - cbn [length] in Hover. lia.
  - cbn [length] in Hover. cbn [load_from]. rewrite bind_unfold.
    destruct (decide (k = length (ram s))) as [-> | Hne].
    + exists s. unfold ram_write. run_monad. unfold setitem.
      rewrite index_outside by lia. cbn.
      split; [done|]. split; [|done].
      by rewrite Nat.sub_diag, take_ge, app_nil_r by lia.
    + rewrite (ram_write_ok s (VInt (Z.of_nat k)) (VInt val) k)
        by (apply index_of_nat; lia).
      replace (Z.of_nat k + 1) with (Z.of_nat (S k)) by lia.
      destruct (IH (S k) (with_ram (<[k:=VInt val]> (ram s)) s))
        as (s' & Hload & Hram & Hrest).
      { cbn. rewrite length_insert. lia. }
      exists s'. split; [done|]. split; [|done].
      rewrite Hram. cbn [ram with_ram]. rewrite length_insert.
      rewrite (take_S_r _ _ (VInt val)) by (apply list_lookup_insert_eq; lia).
      rewrite take_insert_ge by lia.
      replace (length (ram s) - k)%nat with (S (length (ram s) - S k)) by lia.
      by rewrite <- app_assoc.
Qed.

(** X17. A program of more values than memory has cells makes [load]
    raise [IndexError], after it has filled the whole memory with the
    first values of the program. *)
Theorem load_overflows program s :
  (length (ram s) < length program)%nat ->
  exists s', load program s = Raise IndexError s'
    /\ ram s' = VInt <$> take (length (ram s)) program
    /\ only_ram_differs s s'.
Proof.
  intros Hover.
  destruct (load_from_overflows program 0 s) as (s' & Hload & Hram & Hrest); [lia|].
  exists s'. split; [done|]. split; [|done].
  by rewrite Hram, Nat.sub_0_r.
Qed.

Lemma load_overflows_witness :
  exists s', load (replicate 257 7) init = Raise IndexError s'
    /\ ram s' = VInt <$> take (length (ram init)) (replicate 257 7)
    /\ only_ram_differs init s'.
Proof. apply (load_overflows (replicate 257 7) init). vm_compute. lia. Defined.

(** X18. [ram_write] then [ram_read]: a read of the cell just written
    returns the written value, also through the other name of the cell
    (address -1 is address 255), and a read of any other cell returns what
    it held before. *)
Theorem ram_write_then_read s v a a' n n' :
  index (length (ram s)) a = inr n ->
  index (length (ram s)) a' = inr n' ->
  exists r, (ram_write v a;; ram_read a') s
            = Ok r (with_ram (<[n:=v]> (ram s)) s)
    /\ (n = n' -> r = v)
    /\ (n <> n' -> getitem (ram s) a' = inr r).
Proof.
  intros Hn Hn'.
  destruct (getitem_total (<[n:=v]> (ram s)) a' n') as (r & Hr & Hlook);
    [by rewrite length_insert|].
  exists r. split.
  { rewrite bind_unfold, (ram_write_ok _ _ _ _ Hn).
    unfold ram_read. run_monad. by rewrite Hr. }
  split.
  - intros <-. rewrite list_lookup_insert_eq in Hlook by (by eapply index_lt).
    congruence.
  - intros Hne. rewrite list_lookup_insert_ne in Hlook by done.
    apply getitem_spec. eauto.
Qed.

Lemma ram_write_then_read_witness :
  exists r, (ram_write (VInt 9) (VInt (-1));; ram_read (VInt 255)) init
            = Ok r (with_ram (<[255%nat:=VInt 9]> (ram init)) init)
    /\ (255%nat = 255%nat -> r = VInt 9)
    /\ (255%nat <> 255%nat -> getitem (ram init) (VInt 255) = inr r).
Proof.
  apply (ram_write_then_read init (VInt 9) (VInt (-1)) (VInt 255) 255%nat 255%nat);
    vm_compute; reflexivity.
Defined.

(** X19. Neither memory accessor checks its address: outside the index
    range of the list both raise [IndexError], and the failed write leaves
    the machine as it was. *)
Theorem ram_access_outside s v z :
  z < - Z.of_nat (length (ram s)) \/ Z.of_nat (length (ram s)) <= z ->
  ram_read (VInt z) s = Raise IndexError s
  /\ ram_write v (VInt z) s = Raise IndexError s.
Proof.
  intros Hz. split.
  - unfold ram_read. monad_unfold. unfold getitem. by rewrite index_outside.
  - unfold ram_write. monad_unfold. unfold setitem. by rewrite index_outside.
Qed.

Lemma ram_access_outside_witness :
  ram_read (VInt 256) init = Raise IndexError init
  /\ ram_write (VInt 9) (VInt 256) init = Raise IndexError init.
Proof. apply (ram_access_outside init (VInt 9) 256). vm_compute. right. discriminate. Defined.

Lemma index_neighbours len z n1 n2 :
  (2 <= len)%nat ->
  index len (VInt z) = inr n1 -> index len (VInt (z - 1)) = inr n2 -> n1 <> n2.
Proof.
  intros Hlen. unfold index.
  destruct (Z.leb_spec 0 z), (Z.ltb_spec z (Z.of_nat len)),
    (Z.leb_spec (- Z.of_nat len) z), (Z.ltb_spec z 0),
    (Z.leb_spec 0 (z - 1)), (Z.ltb_spec (z - 1) (Z.of_nat len)),
    (Z.leb_spec (- Z.of_nat len) (z - 1)), (Z.ltb_spec (z - 1) 0);
    cbn; try done; try lia; intros [= <-] [= <-]; lia.
Qed.

(** X20. The stack is last in, first out: two [pshVal] followed by two
    [popVal] return the two values in reverse order and bring the stack
    pointer back, leaving the values in the two cells below it. *)
Theorem stack_is_lifo s v w sp n1 n2 :
  (2 <= length (ram s))%nat ->
  getitem (reg s) SP = inr (VInt sp) ->
  index (length (ram s)) (VInt (sp - 1)) = inr n1 ->
  index (length (ram s)) (VInt (sp - 1 - 1)) = inr n2 ->
  exists s', (pshVal v;; pshVal w;; x ← popVal; y ← popVal; mret (x, y)) s
             = Ok (w, v) s'
    /\ reg s' = <[7%nat := VInt sp]> (reg s)
    /\ ram s' = <[n2 := w]> (<[n1 := v]> (ram s)).
Proof.
  intros Hlen Hsp Hn1 Hn2.
  destruct (getitem_SP _ _ Hsp) as [Hi H7].
  pose proof (index_neighbours _ _ _ _ Hlen Hn1 Hn2) as Hne.
  eexists. split.
  { rewrite bind_unfold, (pshVal_ok _ _ _ _ Hsp Hn1).
    rewrite bind_unfold.
    erewrite (pshVal_ok _ w (sp - 1) n2);
      [|fields; by apply getitem_insert_eq|fields; by rewrite length_insert].
    rewrite bind_unfold.
    erewrite (popVal_ok _ w (sp - 1 - 1));
      [|fields; apply getitem_insert_eq; by rewrite length_insert
       |fields; apply getitem_insert_eq; by rewrite length_insert].
    rewrite bind_unfold.
    erewrite (popVal_ok _ v (sp - 1 - 1 + 1));
      [reflexivity
      |fields; apply getitem_insert_eq; by rewrite !length_insert|].
    fields. replace (sp - 1 - 1 + 1) with (sp - 1) by lia.
    apply getitem_insert_ne with (i:=VInt (sp - 1 - 1)) (m:=n1);
      rewrite ?length_insert; try done.
    by apply getitem_insert_eq. }
  fields. rewrite !list_insert_insert_eq. split; [|done].
  f_equal. f_equal. lia.
Qed.

Lemma stack_is_lifo_witness :
  exists s', (pshVal (VInt 1);; pshVal (VInt 2);;
              x ← popVal; y ← popVal; mret (x, y)) init
             = Ok (VInt 2, VInt 1) s'
    /\ reg s' = <[7%nat := VInt 0xf4]> (reg init)
    /\ ram s' = <[242%nat := VInt 2]> (<[243%nat := VInt 1]> (ram init)).
Proof.
  apply (stack_is_lifo init (VInt 1) (VInt 2) 0xf4 243%nat 242%nat);
    [vm_compute; lia|vm_compute; reflexivity..].
Defined.

(** X21. POP with an operand that is not a register index raises, but
    only after [popVal] has run: the exception leaves the stack pointer
    incremented. *)
Theorem pop_bad_register_moves_sp s a b sp v e :
  fetch s = Ok (VInt POP, a, b) s ->
  getitem (reg s) SP = inr (VInt sp) ->
  getitem (ram s) (VInt sp) = inr v ->
  index (length (reg s)) a = inl e ->
  step s = Raise e (with_reg (<[7%nat := VInt (sp + 1)]> (reg s))
                      (with_setsPC false s)).
Proof.
  intros Hf Hsp Hv Ha.
  rewrite (step_wired _ _ _ _ pop Hf) by reflexivity.
  rewrite bind_unfold. unfold set_setsPC at 1, put at 1.
  rewrite bind_unfold. unfold pop. rewrite bind_unfold.
  rewrite (popVal_ok _ v sp) by done.
  unfold reg_put, setitem. run_monad. by rewrite length_insert, Ha.
Qed.

Lemma pop_bad_register_moves_sp_witness :
  step before_pop_bad
  = Raise IndexError (with_reg (<[7%nat := VInt (0xf4 + 1)]> (reg before_pop_bad))
                        (with_setsPC false before_pop_bad)).
Proof.
  apply (pop_bad_register_moves_sp before_pop_bad (VInt 9) (VInt 0) 0xf4 (VInt 0));
    vm_compute; reflexivity.
Defined.

(** X22. However long the loop runs and however it ends, memory keeps its
    256 cells and the register file its 8 registers. *)
Theorem run_keeps_shape n s : wf s -> wf (final (run n s)).
Proof.
  revert s. induction n as [|n IH]; intros s Hwf; cbn [run].
  - by destruct (halted s).
  - destruct (halted s); [done|].
    pose proof (preserves_wf_step s Hwf) as Hstep.
    destruct (step s) as [u s'|e s']; [by apply IH|done].
Qed.

Lemma run_keeps_shape_witness : wf (final (run 5 before_mul)).
Proof. apply (run_keeps_shape 5 before_mul). split; vm_compute; reflexivity. Defined.

(** X23. One iteration on a byte without a handler prints one diagnostic
    carrying the byte and its address and changes neither memory, nor
    registers, nor flags, nor [halted]; the program counter moves past the
    byte and its decoded operands when bit 4 of the byte is clear and stays
    where it is when bit 4 is set. *)
Theorem unwired_prints_diagnostic s z a b p :
  pc s = VInt p ->
  fetch s = Ok (VInt z, a, b) s ->
  branchtable !! z = None ->
  exists s', step s = Ok tt s'
    /\ stdout s' = stdout s ++ [Invalid (VInt z) (VInt p)]
    /\ ram s' = ram s /\ reg s' = reg s /\ fl s' = fl s
    /\ halted s' = halted s
    /\ pc s' = (if Z.testbit z 4 then VInt p
                else VInt (p + 1 + Z.land (Z.shiftr z 6) 3)).
Proof.
  intros Hp Hf Hz. eexists. split; [by apply step_unwired with (a:=a) (b:=b)|].
  cbv zeta. destruct (Z.testbit z 4); fields; repeat split; try done.
  f_equal. lia.
Qed.

Lemma unwired_prints_diagnostic_witness :
  exists s', step (boot []) = Ok tt s'
    /\ stdout s' = stdout (boot []) ++ [Invalid (VInt 0) (VInt 0)]
    /\ ram s' = ram (boot []) /\ reg s' = reg (boot []) /\ fl s' = fl (boot [])
    /\ halted s' = halted (boot [])
    /\ pc s' = (if Z.testbit 0 4 then VInt 0
                else VInt (0 + 1 + Z.land (Z.shiftr 0 6) 3)).
Proof.
  apply (unwired_prints_diagnostic (boot []) 0 (VInt 0) (VInt 0) 0);
    vm_compute; reflexivity.
Defined.
